(** * Rotary-encoder decoders of the raspberryPi repository

    Shallow embedding of the two quadrature decoders found in the sources:

    - [RotencPi]: the full-step state machine of [old-files/rotencPi.c]
      ([encoderStateTable], [encoderDirection]);
    - [IQRot]: the direct two-bit lookup of the volume daemon
      ([encoderPulse] with the globals [encoderPos] and [lastEncoded]).

    Around them: the rest of the volume daemon ([IQRotMain]:
    [getWiringPiNum], [parse_opt], the start-up index and the polling loop
    of [main]), the two decoders run side by side ([Tracking]), and the two
    helpers of the meter test program ([MeterTest]: [time_elapsed],
    [reverse_string]).  [Interleaving] splits a call of [encoderDirection]
    into its accesses to the shared [encoder], for two interrupt contexts.

    C integers are modelled in [Z]; conversions to [unsigned char] and the
    32-bit [int] range are written out.  The two [digitalRead] results of a
    call are inputs of the embedded function: wiringPi returns [LOW] (0) or
    [HIGH] (1), so a level is a [bool] turned into an integer by [Z.b2z]. *)

From Stdlib Require Import ZArith List Bool Lia.
From Stdlib Require String.
Import ListNotations.
Local Open Scope Z_scope.

(* ------------------------------------------------------------------------- *)
(** ** old-files/rotencPi.c                                                   *)
(* ------------------------------------------------------------------------- *)

Module RotencPi.

(** Conversion to [unsigned char]. *)
Definition to_uchar (x : Z) : Z := x mod 256.

(** The global [encoder].  Its declaration lives in [rotencPi.h], which is
    not part of the sources: the four fields are the ones the functions of
    [rotencPi.c] use, kept as unbounded integers (every value stored in
    them by [encoderDirection] is a table entry, or -1, 0 or 1). *)
Record encoderStruct : Type := mkEncoder
  { gpioA : Z;
    gpioB : Z;
    state : Z;
    direction : Z }.

(** [const unsigned char encoderStateTable[7][4]]. *)
Definition encoderStateTable : list (list Z) :=
  [ [ 0x0; 0x2; 0x4; 0x0  ];
    [ 0x3; 0x0; 0x1; 0x10 ];
    [ 0x3; 0x2; 0x0; 0x0  ];
    [ 0x3; 0x2; 0x1; 0x0  ];
    [ 0x6; 0x0; 0x4; 0x0  ];
    [ 0x6; 0x5; 0x0; 0x20 ];
    [ 0x6; 0x5; 0x4; 0x0  ] ].

(** [table[row][col]]: an access outside the 7x4 array has no defined
    result in C, which is [None] here. *)
Definition table_get (table : list (list Z)) (row col : Z) : option Z :=
  if (row <? 0) || (col <? 0) then None
  else match nth_error table (Z.to_nat row) with
       | Some r => nth_error r (Z.to_nat col)
       | None => None
       end.

(** [code = ( digitalRead( gpioB ) << 1 ) | digitalRead( gpioA )]. *)
Definition encoderCode (levelA levelB : bool) : Z :=
  to_uchar (Z.lor (Z.shiftl (Z.b2z levelB) 1) (Z.b2z levelA)).

(** [encoderDirection]: one run of the interrupt routine, on the levels
    read from the two pins. *)
Definition encoderDirection (levelA levelB : bool) (encoder : encoderStruct)
  : option encoderStruct :=
  let code := encoderCode levelA levelB in
  match table_get encoderStateTable (Z.land (state encoder) 0xf) code with
  | None => None
  | Some st =>
      let dir := to_uchar (Z.land st 0x30) in
      Some {| gpioA := gpioA encoder;
              gpioB := gpioB encoder;
              state := st;
              direction := if negb (dir =? 0)
                           then (if dir =? 0x10 then -1 else 1)
                           else 0 |}
  end.

(** The encoder as [encoderInit] leaves it: the pins recorded, the state
    still the zero the global starts with (START). *)
Definition START : Z := 0.

Definition encoderInit (pinA pinB : Z) : encoderStruct :=
  {| gpioA := pinA; gpioB := pinB; state := START; direction := 0 |}.

(** Successive interrupts: the encoder after each call, in order.  A sample
    is the pair (level of A, level of B) read by that call. *)
Fixpoint encoderTrace (encoder : encoderStruct) (samples : list (bool * bool))
  : option (list encoderStruct) :=
  match samples with
  | [] => Some []
  | (a, b) :: rest =>
      match encoderDirection a b encoder with
      | None => None
      | Some e =>
          match encoderTrace e rest with
          | None => None
          | Some tr => Some (e :: tr)
          end
      end
  end.

(** The encoder after all the calls of a run. *)
Fixpoint encoderRun (encoder : encoderStruct) (samples : list (bool * bool))
  : option encoderStruct :=
  match samples with
  | [] => Some encoder
  | (a, b) :: rest =>
      match encoderDirection a b encoder with
      | None => None
      | Some e => encoderRun e rest
      end
  end.

(** The levels whose code is [c]: A is bit 0, B is bit 1. *)
Definition levelsOfCode (c : Z) : bool * bool := (Z.testbit c 0, Z.testbit c 1).

(** One detent of each rotation sense, as the (A, B) phases met after the
    rest phase 00: 00 -> 01 -> 11 -> 10 -> 00 and 00 -> 10 -> 11 -> 01 -> 00. *)
Definition detentCW : list (bool * bool) :=
  [ (false, true); (true, true); (true, false); (false, false) ].

Definition detentCCW : list (bool * bool) :=
  [ (true, false); (true, true); (false, true); (false, false) ].

Fixpoint detents (d : list (bool * bool)) (n : nat) : list (bool * bool) :=
  match n with
  | O => []
  | S k => d ++ detents d k
  end.

(** The value stored in [direction] for a table entry. *)
Definition directionOf (st : Z) : Z :=
  let dir := to_uchar (Z.land st 0x30) in
  if negb (dir =? 0) then (if dir =? 0x10 then -1 else 1) else 0.

(** A state whose low nibble names one of the seven rows. *)
Definition rowOK (e : encoderStruct) : Prop := Z.land (state e) 0xf <= 6.

(** The projection of a trace on what a test observes: the stored state and
    the reported direction after each call. *)
Definition observe (tr : option (list encoderStruct)) : option (list (Z * Z)) :=
  option_map (map (fun e => (state e, direction e))) tr.

(** The directions reported by the calls of a run, in order. *)
Definition directions (encoder : encoderStruct) (samples : list (bool * bool))
  : option (list Z) :=
  option_map (map direction) (encoderTrace encoder samples).

(** How many calls of a run reported the direction [d]. *)
Definition countEvents (d : Z) (ds : option (list Z)) : nat :=
  match ds with
  | Some l => count_occ Z.eq_dec l d
  | None => O
  end.

End RotencPi.

(* ------------------------------------------------------------------------- *)
(** ** The volume daemon: [encoderPulse]                                      *)
(* ------------------------------------------------------------------------- *)

Module IQRot.

Definition TRUE : Z := 1.
Definition FALSE : Z := 0.

(** Range of a 32-bit [int]; arithmetic that leaves it wraps, as it does on
    the target. *)
Definition to_int (x : Z) : Z := (x + 2 ^ 31) mod 2 ^ 32 - 2 ^ 31.

(** The [static volatile int] globals under "Encoder state". *)
Record encoderGlobals : Type := mkGlobals
  { encoderPos : Z;
    lastEncoded : Z;
    encoded : Z;
    inCriticalSection : Z }.

(** [int encoded = (MSB << 1) | LSB], with MSB read from pin A and LSB from
    pin B. *)
Definition pulseCode (levelA levelB : bool) : Z :=
  Z.lor (Z.shiftl (Z.b2z levelA) 1) (Z.b2z levelB).

(** [int sum = (lastEncoded << 2) | encoded]. *)
Definition pulseSum (last code : Z) : Z :=
  Z.lor (to_int (Z.shiftl last 2)) code.

Definition isIncrement (sum : Z) : bool :=
  (sum =? 13) || (sum =? 4) || (sum =? 2) || (sum =? 11).

Definition isDecrement (sum : Z) : bool :=
  (sum =? 14) || (sum =? 7) || (sum =? 1) || (sum =? 8).

(** [encoderPulse]: the guard returns at once when the flag is up;
    otherwise the call runs to its end and lowers the flag again.  The local
    [encoded] shadows the global of that name, which is never written. *)
Definition encoderPulse (levelA levelB : bool) (g : encoderGlobals)
  : encoderGlobals :=
  if inCriticalSection g =? TRUE then g
  else
    let code := pulseCode levelA levelB in
    let sum := pulseSum (lastEncoded g) code in
    let pos :=
      if isIncrement sum then to_int (encoderPos g + 1)
      else if isDecrement sum then to_int (encoderPos g - 1)
      else encoderPos g in
    {| encoderPos := pos;
       lastEncoded := code;
       encoded := encoded g;
       inCriticalSection := FALSE |}.

End IQRot.

(* ------------------------------------------------------------------------- *)
(** ** The volume daemon: options, start-up and polling loop                  *)
(* ------------------------------------------------------------------------- *)

Module IQRotMain.
Import IQRot.
Import Stdlib.Strings.String.

(** [getWiringPiNum]: the [switch] from GPIO number to wiringPi number,
    0 for a number that is not listed. *)
Definition getWiringPiNum (pin : Z) : Z :=
  match pin with
  | 0 => 8
  | 1 => 9
  | 2 => 8
  | 3 => 9
  | 4 => 7
  | 7 => 11
  | 8 => 10
  | 9 => 13
  | 10 => 12
  | 11 => 14
  | 14 => 15
  | 15 => 16
  | 17 => 0
  | 18 => 1
  | 21 => 2
  | 22 => 3
  | 23 => 4
  | 24 => 5
  | 25 => 6
  | 27 => 2
  | 28 => 17
  | 29 => 18
  | 30 => 19
  | 31 => 20
  | _ => 0
  end.

Section Options.

(** The C library is a parameter of the option parser: [atoi] and [atof],
    and the type [double].  The three range tests that [parse_opt] makes on
    the factor are floating-point comparisons; they are kept together as one
    parameter, [checkFactor]. *)
Variable double : Type.
Variable atoi : String.string -> Z.
Variable atof : String.string -> double.
Variable checkFactor : double -> double.

(** [struct paramList]. *)
Record paramList : Type := mkParams
  { Name : String.string;
    Control : String.string;
    GPIO_A : Z;
    GPIO_B : Z;
    WiringPiPin_A : Z;
    WiringPiPin_B : Z;
    Initial : Z;
    Factor : double;
    Increments : Z;
    Delay : Z;
    Debug : Z }.

(** The initial value of the global [Parameters]; [factor] stands for the
    constant 0.1. *)
Definition defaultParameters (factor : double) : paramList :=
  {| Name := "default"%string;
     Control := "Digital"%string;
     GPIO_A := 23;
     GPIO_B := 24;
     WiringPiPin_A := 4;
     WiringPiPin_B := 5;
     Initial := 0;
     Factor := factor;
     Increments := 20;
     Delay := 250;
     Debug := 0 |}.

Definition setName (P : paramList) (v : String.string) : paramList :=
  mkParams v (Control P) (GPIO_A P) (GPIO_B P) (WiringPiPin_A P)
           (WiringPiPin_B P) (Initial P) (Factor P) (Increments P) (Delay P)
           (Debug P).

Definition setControl (P : paramList) (v : String.string) : paramList :=
  mkParams (Name P) v (GPIO_A P) (GPIO_B P) (WiringPiPin_A P)
           (WiringPiPin_B P) (Initial P) (Factor P) (Increments P) (Delay P)
           (Debug P).

Definition setPinA (P : paramList) (gpio wiring : Z) : paramList :=
  mkParams (Name P) (Control P) gpio (GPIO_B P) wiring
           (WiringPiPin_B P) (Initial P) (Factor P) (Increments P) (Delay P)
           (Debug P).

Definition setPinB (P : paramList) (gpio wiring : Z) : paramList :=
  mkParams (Name P) (Control P) (GPIO_A P) gpio (WiringPiPin_A P)
           wiring (Initial P) (Factor P) (Increments P) (Delay P)
           (Debug P).

Definition setInitial (P : paramList) (v : Z) : paramList :=
  mkParams (Name P) (Control P) (GPIO_A P) (GPIO_B P) (WiringPiPin_A P)
           (WiringPiPin_B P) v (Factor P) (Increments P) (Delay P)
           (Debug P).

Definition setFactor (P : paramList) (v : double) : paramList :=
  mkParams (Name P) (Control P) (GPIO_A P) (GPIO_B P) (WiringPiPin_A P)
           (WiringPiPin_B P) (Initial P) v (Increments P) (Delay P)
           (Debug P).

Definition setIncrements (P : paramList) (v : Z) : paramList :=
  mkParams (Name P) (Control P) (GPIO_A P) (GPIO_B P) (WiringPiPin_A P)
           (WiringPiPin_B P) (Initial P) (Factor P) v (Delay P)
           (Debug P).

Definition setDelay (P : paramList) (v : Z) : paramList :=
  mkParams (Name P) (Control P) (GPIO_A P) (GPIO_B P) (WiringPiPin_A P)
           (WiringPiPin_B P) (Initial P) (Factor P) (Increments P) v
           (Debug P).

Definition setDebug (P : paramList) (v : Z) : paramList :=
  mkParams (Name P) (Control P) (GPIO_A P) (GPIO_B P) (WiringPiPin_A P)
           (WiringPiPin_B P) (Initial P) (Factor P) (Increments P) (Delay P)
           v.

(** [parse_opt]: one option, [param] being the character code of its key
    ('a' = 97, 'b' = 98, 'c' = 99, 'd' = 100, 'e' = 101, 'f' = 102,
    'i' = 105, 'n' = 110, 'z' = 122).  The function always returns 0; what
    is kept here is its effect on [Parameters].  The warnings it prints are
    left out. *)
Definition parse_opt (param : Z) (arg : String.string) (P : paramList)
  : paramList :=
  match param with
  | 110 => setName P arg
  | 99 => setControl P arg
  | 97 =>
      let gpio := atoi arg in
      let wiring := getWiringPiNum gpio in
      if wiring =? 0 then setPinA P 23 4 else setPinA P gpio wiring
  | 98 =>
      let gpio := atoi arg in
      let wiring := getWiringPiNum gpio in
      if wiring =? 0 then setPinB P 24 5 else setPinB P gpio wiring
  | 105 =>
      let v := atoi arg in
      if v >? 100 then setInitial P 100
      else if v <? 0 then setInitial P 0
      else setInitial P v
  | 101 =>
      let v := atoi arg in
      let v1 := if v <? 1 then 1 else v in
      let v2 := if v1 >? 100 then 100 else v1 in
      setIncrements P v2
  | 102 => setFactor P (checkFactor (atof arg))
  | 100 =>
      let v := atoi arg in
      if (v <? 0) || (v >? 1000) then setDelay P 250 else setDelay P v
  | 122 =>
      let v := atoi arg in
      if negb (v =? 0) then setDebug P 1 else setDebug P v
  | _ => P
  end.

(** [argp_parse] hands the options of the command line to [parse_opt] one
    after the other. *)
Definition parseOptions (opts : list (Z * String.string)) (P : paramList)
  : paramList :=
  fold_left (fun Q o => parse_opt (fst o) (snd o) Q) opts P.

(** What every option keeps true of [Parameters]. *)
Definition paramsOK (P : paramList) : Prop :=
  WiringPiPin_A P = getWiringPiNum (GPIO_A P) /\
  1 <= WiringPiPin_A P <= 20 /\
  WiringPiPin_B P = getWiringPiNum (GPIO_B P) /\
  1 <= WiringPiPin_B P <= 20 /\
  0 <= Initial P <= 100 /\
  1 <= Increments P <= 100 /\
  0 <= Delay P <= 1000 /\
  (Debug P = 0 \/ Debug P = 1).

(** [indexVolume = (Parameters.Increments * Parameters.Initial / 100)] in
    [main], in [int] arithmetic. *)
Definition initialIndex (P : paramList) : Z :=
  Z.quot (to_int (Increments P * Initial P)) 100.

(** The variables of [main] that the polling loop updates. *)
Record loopVars : Type := mkLoop
  { pos : Z;
    indexVolume : Z;
    currentVolume : Z }.

(** [getVolume] computes in floating point; the loop is embedded over it. *)
Variable getVolume : Z -> Z -> Z -> Z.

(** One turn of the [while (1)] loop of [main], between two delays, with no
    interrupt inside the turn.  [vmin] and [vmax] are the volume range read
    from the mixer.  The result is the globals, the variables of [main], and
    the volume handed to the mixer if the turn sets one. *)
Definition mainLoopBody (P : paramList) (vmin vmax : Z)
  (g : encoderGlobals) (l : loopVars)
  : encoderGlobals * loopVars * option Z :=
  if negb (encoderPos g =? pos l) then
    if encoderPos g >? pos l then
      let index1 := to_int (indexVolume l + 1) in
      let over := (index1 >=? to_int (Increments P + 1)) || (currentVolume l >? vmax) in
      let index2 := if over then Increments P else index1 in
      let high := encoderPos g >? 250 in
      let g' := if high
                then mkGlobals 250 (lastEncoded g) (encoded g) (inCriticalSection g)
                else g in
      let pos' := if high then 250 else encoderPos g in
      let volume := getVolume index2 vmin vmax in
      (g', mkLoop pos' index2 volume, Some volume)
    else if encoderPos g <? pos l then
      let index1 := to_int (indexVolume l - 1) in
      let under := (index1 <? 0) || (currentVolume l <? vmin) in
      let index2 := if under then 0 else index1 in
      let low := encoderPos g <? 0 in
      let g' := if low
                then mkGlobals 0 (lastEncoded g) (encoded g) (inCriticalSection g)
                else g in
      let pos' := if low then 0 else encoderPos g in
      let volume := getVolume index2 vmin vmax in
      (g', mkLoop pos' index2 volume, Some volume)
    else (g, l, Some (currentVolume l))
  else (g, l, None).

End Options.

(** The interrupt routine called once per sample, in order. *)
Definition pulseRun (g : encoderGlobals) (samples : list (bool * bool))
  : encoderGlobals :=
  fold_left (fun h ab => encoderPulse (fst ab) (snd ab) h) samples g.

(** The change of [encoderPos] that [encoderPulse] makes for the levels
    [cur] when [lastEncoded] holds the code of the levels [prev]. *)
Definition quarter (prev cur : bool * bool) : Z :=
  let sum := pulseSum (pulseCode (fst prev) (snd prev))
                      (pulseCode (fst cur) (snd cur)) in
  if isIncrement sum then 1 else if isDecrement sum then -1 else 0.

(** The place of a code on the ring 3 -> 1 -> 0 -> 2 -> 3 of the increment
    patterns. *)
Definition ringIndex (code : Z) : Z :=
  match code with
  | 3 => 0
  | 1 => 1
  | 0 => 2
  | 2 => 3
  | _ => 0
  end.

End IQRotMain.

(* ------------------------------------------------------------------------- *)
(** ** Both decoders on one signal                                            *)
(* ------------------------------------------------------------------------- *)

Module Tracking.
Import RotencPi.

(** At most one of the two lines differs between two samples. *)
Definition oneLine (prev cur : bool * bool) : bool :=
  negb (xorb (fst prev) (fst cur) && xorb (snd prev) (snd cur)).

(** A signal in which no sample changes both lines at once, [prev] being the
    levels before the first sample. *)
Fixpoint legalFrom (prev : bool * bool) (samples : list (bool * bool)) : bool :=
  match samples with
  | [] => true
  | cur :: rest => oneLine prev cur && legalFrom cur rest
  end.

(** Quarter steps from the rest position that a row of the table stands
    for: rows 4, 6, 5 are one, two and three steps on the +1 side, rows 2,
    3, 1 the same on the -1 side. *)
Definition offsetOf (st : Z) : Z :=
  match Z.land st 0xf with
  | 4 => 1
  | 6 => 2
  | 5 => 3
  | 2 => -1
  | 3 => -2
  | 1 => -3
  | _ => 0
  end.

(** The row of the encoder matches the levels last read. *)
Definition inPhase (e : encoderStruct) (last : bool * bool) : bool :=
  let code := encoderCode (fst last) (snd last) in
  match Z.land (state e) 0xf with
  | 0 => code =? 3
  | 2 => code =? 1
  | 3 => code =? 0
  | 1 => code =? 2
  | 4 => code =? 2
  | 6 => code =? 0
  | 5 => code =? 1
  | _ => false
  end.

(** Sum of the directions reported along a trace. *)
Definition netEvents (tr : list encoderStruct) : Z :=
  fold_right Z.add 0 (map direction tr).

End Tracking.

(* ------------------------------------------------------------------------- *)
(** ** The meter test program: its two helpers                                *)
(* ------------------------------------------------------------------------- *)

Module MeterTest.

Definition to_uint32 (x : Z) : Z := x mod 2 ^ 32.

(** [struct timeval]. *)
Record timeval : Type := mkTimeval
  { tv_sec : Z;
    tv_usec : Z }.

(** [time_elapsed]: every operation is on [uint32_t]. *)
Definition time_elapsed (start end_ : timeval) : Z :=
  let start_us :=
    to_uint32 (to_uint32 (to_uint32 (tv_sec start) * 1000000)
               + to_uint32 (tv_usec start)) in
  let end_us :=
    to_uint32 (to_uint32 (to_uint32 (tv_sec end_) * 1000000)
               + to_uint32 (tv_usec end_)) in
  to_uint32 (end_us - start_us).

(** [buffer[i]] and [buffer[i] = v]; outside the buffer there is no
    result. *)
Definition buffer_get (buffer : list Z) (i : nat) : option Z :=
  nth_error buffer i.

Definition buffer_set (buffer : list Z) (i : nat) (v : Z) : option (list Z) :=
  if (i <? length buffer)%nat
  then Some (firstn i buffer ++ v :: skipn (S i) buffer)
  else None.

(** The [while] loop of [reverse_string]; [start] and [end] are [size_t]
    indices.  [fuel] bounds the number of turns. *)
Fixpoint reverse_loop (fuel : nat) (buffer : list Z) (start end_ : nat)
  : option (list Z) :=
  match fuel with
  | O => None
  | S f =>
      if (start <? end_)%nat then
        let end' := Nat.pred end_ in
        match buffer_get buffer start, buffer_get buffer end' with
        | Some temp, Some other =>
            match buffer_set buffer start other with
            | Some b1 =>
                match buffer_set b1 end' temp with
                | Some b2 => reverse_loop f b2 (S start) end'
                | None => None
                end
            | None => None
            end
        | _, _ => None
        end
      else Some buffer
  end.

Definition reverse_string (buffer : list Z) (start end_ : nat) : option (list Z) :=
  reverse_loop (S (end_ - start)) buffer start end_.

End MeterTest.

(* ------------------------------------------------------------------------- *)
(** ** Two interrupt contexts on the shared encoder                           *)
(* ------------------------------------------------------------------------- *)

Module Interleaving.
Import RotencPi.

(** [encoderDirection] takes no lock (the two [pthread_mutex] calls are
    commented out), so a call is three accesses to the shared [encoder]
    that another context can come between: the load of [encoder.state] for
    the table lookup, the store of the entry into [encoder.state], and the
    read of [encoder.state] again for the direction, stored in
    [encoder.direction]. *)
Inductive callPhase : Type :=
| Idle
| Loaded (entry : Z)
| Stored.

(** One interrupt context: where its current call stands, the levels its
    next calls will read, and the directions its finished calls reported. *)
Record caller : Type := mkCaller
  { phase : callPhase;
    pending : list (bool * bool);
    reported : list Z }.

Record system : Type := mkSystem
  { shared : encoderStruct;
    first : caller;
    second : caller }.

(** The next access of a context.  An idle context with no call left has no
    step. *)
Definition callerStep (c : caller) (e : encoderStruct)
  : option (caller * encoderStruct) :=
  match phase c with
  | Idle =>
      match pending c with
      | [] => None
      | (a, b) :: rest =>
          match table_get encoderStateTable (Z.land (state e) 0xf)
                          (encoderCode a b) with
          | Some st => Some (mkCaller (Loaded st) rest (reported c), e)
          | None => None
          end
      end
  | Loaded st =>
      Some (mkCaller Stored (pending c) (reported c),
            mkEncoder (gpioA e) (gpioB e) st (direction e))
  | Stored =>
      let d := directionOf (state e) in
      Some (mkCaller Idle (pending c) (reported c ++ [d]),
            mkEncoder (gpioA e) (gpioB e) (state e) d)
  end.

(** One access by the first ([false]) or the second ([true]) context. *)
Definition systemStep (who : bool) (s : system) : option system :=
  if who then
    match callerStep (second s) (shared s) with
    | Some (c, e) => Some (mkSystem e (first s) c)
    | None => None
    end
  else
    match callerStep (first s) (shared s) with
    | Some (c, e) => Some (mkSystem e c (second s))
    | None => None
    end.

(** A schedule says which context makes the next access. *)
Fixpoint runSchedule (schedule : list bool) (s : system) : option system :=
  match schedule with
  | [] => Some s
  | who :: rest =>
      match systemStep who s with
      | Some s' => runSchedule rest s'
      | None => None
      end
  end.

(** The serialized schedules: every call runs its three accesses in one
    piece, the calls coming in the given order. *)
Definition serialSchedule (order : list bool) : list bool :=
  flat_map (fun who => [who; who; who]) order.

(** Two contexts about to make the given calls on the encoder [e]. *)
Definition twoCallers (e : encoderStruct) (calls1 calls2 : list (bool * bool))
  : system :=
  mkSystem e (mkCaller Idle calls1 []) (mkCaller Idle calls2 []).

(** Every call has been made and has finished. *)
Definition allDone (s : system) : bool :=
  match phase (first s), pending (first s),
        phase (second s), pending (second s) with
  | Idle, [], Idle, [] => true
  | _, _, _, _ => false
  end.

(** Positive minus negative reports, over both contexts. *)
Definition tickCount (s : system) : Z :=
  fold_right Z.add 0 (reported (first s) ++ reported (second s)).

End Interleaving.

(* ------------------------------------------------------------------------- *)
(** ** Properties of the full-step decoder                                    *)
(* ------------------------------------------------------------------------- *)

Module RotencPiProofs.
Import RotencPi.

(** *** Bit-level facts *)

Lemma land_0xf_range (s : Z) : 0 <= Z.land s 0xf < 16.
Proof.
  change 0xf with (Z.ones 4). rewrite Z.land_ones by lia.
  change (2 ^ 4) with 16. apply Z.mod_pos_bound. lia.
Qed.

Lemma encoderCode_range (a b : bool) : 0 <= encoderCode a b <= 3.
Proof. destruct a, b; vm_compute; split; discriminate. Qed.

Lemma encoderCode_bits (a b : bool) :
  encoderCode a b = Z.lor (Z.shiftl (Z.b2z b) 1) (Z.b2z a).
Proof. destruct a, b; reflexivity. Qed.

Lemma levelsOfCode_code (a b : bool) : levelsOfCode (encoderCode a b) = (a, b).
Proof. destruct a, b; reflexivity. Qed.

(** *** The routine seen row by row *)

Lemma encoderDirection_row (e : encoderStruct) (a b : bool) (r : Z) :
  Z.land (state e) 0xf = r ->
  encoderDirection a b e =
  option_map (fun st => mkEncoder (gpioA e) (gpioB e) st (directionOf st))
             (table_get encoderStateTable r (encoderCode a b)).
Proof.
  intros <-. unfold encoderDirection.
  destruct (table_get _ _ _); reflexivity.
Qed.

Lemma rowOK_cases (e : encoderStruct) :
  rowOK e ->
  exists r, Z.land (state e) 0xf = r /\
            (r = 0 \/ r = 1 \/ r = 2 \/ r = 3 \/ r = 4 \/ r = 5 \/ r = 6).
Proof.
  unfold rowOK. intros H. pose proof (land_0xf_range (state e)).
  eexists. split; [ reflexivity | lia ].
Qed.

(** Splits a goal on the row of [e] and on the two levels, and evaluates the
    call in each of the 28 cases. *)
Ltac step_cases e a b H :=
  let r := fresh "r" in
  let R := fresh "R" in
  let C := fresh "C" in
  destruct (rowOK_cases e H) as (r & R & C);
  rewrite (encoderDirection_row e a b r R);
  repeat (destruct C as [C | C]); rewrite C in R |- *; clear r C;
  destruct a, b; cbn [option_map].

Lemma step_total (e : encoderStruct) (a b : bool) :
  rowOK e -> exists e', encoderDirection a b e = Some e' /\ rowOK e'.
Proof.
  intros H. step_cases e a b H;
    (eexists; split; [ reflexivity | vm_compute; discriminate ]).
Qed.

Lemma init_rowOK (pA pB : Z) : rowOK (encoderInit pA pB).
Proof. vm_compute. discriminate. Qed.

Lemma run_total (samples : list (bool * bool)) :
  forall e, rowOK e -> exists e', encoderRun e samples = Some e' /\ rowOK e'.
Proof.
  induction samples as [| [a b] rest IH]; intros e H.
  - exists e. split; [ reflexivity | exact H ].
  - destruct (step_total e a b H) as (e1 & Hstep & H1).
    destruct (IH e1 H1) as (e2 & Hrun & H2).
    exists e2. split; [ | exact H2 ].
    cbn [encoderRun]. rewrite Hstep. exact Hrun.
Qed.

Lemma trace_total (samples : list (bool * bool)) :
  forall e, rowOK e ->
  exists tr, encoderTrace e samples = Some tr /\
             length tr = length samples /\ Forall rowOK tr.
Proof.
  induction samples as [| [a b] rest IH]; intros e H.
  - exists []. repeat split. constructor.
  - destruct (step_total e a b H) as (e1 & Hstep & H1).
    destruct (IH e1 H1) as (tr & Htr & Hlen & Hall).
    exists (e1 :: tr). repeat split.
    + cbn [encoderTrace]. rewrite Hstep, Htr. reflexivity.
    + cbn [length]. now rewrite Hlen.
    + now constructor.
Qed.

Lemma encoderRun_app (l1 l2 : list (bool * bool)) :
  forall e,
  encoderRun e (l1 ++ l2) =
  match encoderRun e l1 with
  | Some e1 => encoderRun e1 l2
  | None => None
  end.
Proof.
  induction l1 as [| [a b] l1 IH]; intros e; cbn [app encoderRun].
  - reflexivity.
  - destruct (encoderDirection a b e); [ apply IH | reflexivity ].
Qed.

(** A reached encoder is in a valid row. *)
Lemma reached_rowOK (pA pB : Z) (samples : list (bool * bool)) (e : encoderStruct) :
  encoderRun (encoderInit pA pB) samples = Some e -> rowOK e.
Proof.
  intros H.
  destruct (run_total samples _ (init_rowOK pA pB)) as (e' & Hrun & Hok).
  congruence.
Qed.

(** Every entry of the table is one of nine values. *)
Lemma table_entry (r c v : Z) :
  table_get encoderStateTable r c = Some v ->
  In v [0; 1; 2; 3; 4; 5; 6; 0x10; 0x20].
Proof.
  unfold table_get. destruct ((r <? 0) || (c <? 0)); [ discriminate | ].
  destruct (nth_error encoderStateTable (Z.to_nat r)) as [row |] eqn:Hrow;
    [ | discriminate ].
  intros Hcol. apply nth_error_In in Hrow. apply nth_error_In in Hcol.
  cbn [encoderStateTable In] in Hrow.
  repeat (destruct Hrow as [<- | Hrow]);
    try contradiction; cbn [In] in Hcol |- *; intuition.
Qed.

(** *** Single calls *)

(** C1 -- For every prior state and pair of levels, one call computes
    [code = (levelB << 1) | levelA] (a value in 0..3), stores the table entry
    [next] of row [state & 0xf] and column [code] as the new state, leaves
    the pin fields alone, and reports the direction read from
    [next & 0x30]: -1 for 0x10, +1 for 0x20, 0 for 0x00; these are the
    only three values the table gives to those bits. *)
Theorem encoderDirection_step
  (encoder : encoderStruct) (levelA levelB : bool) (next : Z)
  (Hnext : table_get encoderStateTable (Z.land (state encoder) 0xf)
             (Z.lor (Z.shiftl (Z.b2z levelB) 1) (Z.b2z levelA)) = Some next) :
  encoderCode levelA levelB = Z.lor (Z.shiftl (Z.b2z levelB) 1) (Z.b2z levelA) /\
  0 <= encoderCode levelA levelB <= 3 /\
  (Z.land next 0x30 = 0x10 \/ Z.land next 0x30 = 0x20 \/ Z.land next 0x30 = 0x00) /\
  exists d,
    encoderDirection levelA levelB encoder =
      Some (mkEncoder (gpioA encoder) (gpioB encoder) next d) /\
    (Z.land next 0x30 = 0x10 -> d = -1) /\
    (Z.land next 0x30 = 0x20 -> d = 1) /\
    (Z.land next 0x30 = 0x00 -> d = 0).
Proof.
  rewrite <- encoderCode_bits in Hnext.
  split; [ apply encoderCode_bits | ].
  split; [ apply encoderCode_range | ].
  pose proof (table_entry _ _ _ Hnext) as Hin.
  unfold encoderDirection. rewrite Hnext.
  cbn [In] in Hin.
  repeat (destruct Hin as [<- | Hin]); try contradiction;
    (split; [ vm_compute; auto | ]);
    eexists; (split; [ reflexivity | ]);
    vm_compute; repeat split; intros; congruence.
Qed.

Lemma encoderDirection_step_witness :
  table_get encoderStateTable (Z.land (state (mkEncoder 23 24 1 0)) 0xf)
    (Z.lor (Z.shiftl (Z.b2z true) 1) (Z.b2z true)) = Some 0x10 /\
  encoderDirection true true (mkEncoder 23 24 1 0) =
    Some (mkEncoder 23 24 0x10 (-1)).
Proof.
  split; [ reflexivity | ].
  destruct (encoderDirection_step (mkEncoder 23 24 1 0) true true 0x10 eq_refl)
    as (_ & _ & _ & d & Hd & Hneg & _ & _).
  rewrite Hd, (Hneg eq_refl). reflexivity.
Defined.

(** *** The literal table on two four-call runs *)

(** C2, as the code has it -- with the table fixed to its literal values,
    the code sequence [1;3;2;0] from START gives the states [2;0;4;6] and no
    direction on any of the four calls; the sequence that reaches row 1,
    column 3 is [1;0;2;3], which gives the states [2;3;1;0x10], no direction
    on the first three calls and -1 on the fourth. *)
Theorem literal_table_runs (pinA pinB : Z) :
  encoderStateTable =
    [ [0; 2; 4; 0]; [3; 0; 1; 0x10]; [3; 2; 0; 0]; [3; 2; 1; 0];
      [6; 0; 4; 0]; [6; 5; 0; 0x20]; [6; 5; 4; 0] ] /\
  map (fun ab => encoderCode (fst ab) (snd ab)) (map levelsOfCode [1; 3; 2; 0])
    = [1; 3; 2; 0] /\
  observe (encoderTrace (encoderInit pinA pinB) (map levelsOfCode [1; 3; 2; 0]))
    = Some [ (2, 0); (0, 0); (4, 0); (6, 0) ] /\
  map (fun ab => encoderCode (fst ab) (snd ab)) (map levelsOfCode [1; 0; 2; 3])
    = [1; 0; 2; 3] /\
  observe (encoderTrace (encoderInit pinA pinB) (map levelsOfCode [1; 0; 2; 3]))
    = Some [ (2, 0); (3, 0); (1, 0); (0x10, -1) ].
Proof. repeat split. Qed.

(** The run of C2 as the specification words it does not happen: after
    [1;3;2;0] the directions are not [0;0;0;-1], and the states, even reduced
    to their low nibble, are not [2;3;0;0]. *)
Lemma literal_table_run_1320_refuted :
  ~ (directions (encoderInit 23 24) (map levelsOfCode [1; 3; 2; 0])
       = Some [0; 0; 0; -1]) /\
  ~ (option_map (map state)
       (encoderTrace (encoderInit 23 24) (map levelsOfCode [1; 3; 2; 0]))
       = Some [2; 3; 0; 0]) /\
  ~ (option_map (map (fun e => Z.land (state e) 0xf))
       (encoderTrace (encoderInit 23 24) (map levelsOfCode [1; 3; 2; 0]))
       = Some [2; 3; 0; 0]).
Proof. repeat split; vm_compute; discriminate. Qed.

(** *** Totality *)

(** C6 -- From START every sequence of calls runs to its end: each call
    finds its table entry, every state met has [state & 0xf] in 0..6, and in
    the state reached every further code is in 0..3 and has an entry too. *)
Theorem encoderDirection_total (pinA pinB : Z) (samples : list (bool * bool)) :
  exists tr e,
    encoderTrace (encoderInit pinA pinB) samples = Some tr /\
    length tr = length samples /\
    Forall (fun x => 0 <= Z.land (state x) 0xf <= 6) tr /\
    encoderRun (encoderInit pinA pinB) samples = Some e /\
    0 <= Z.land (state e) 0xf <= 6 /\
    forall levelA levelB,
      0 <= encoderCode levelA levelB <= 3 /\
      (exists next,
         table_get encoderStateTable (Z.land (state e) 0xf)
                   (encoderCode levelA levelB) = Some next) /\
      (exists e', encoderDirection levelA levelB e = Some e').
Proof.
  destruct (trace_total samples _ (init_rowOK pinA pinB)) as (tr & Htr & Hlen & Hall).
  destruct (run_total samples _ (init_rowOK pinA pinB)) as (e & Hrun & Hok).
  exists tr, e. repeat split; try assumption.
  - eapply Forall_impl; [ | exact Hall ].
    intros x Hx. split; [ apply land_0xf_range | exact Hx ].
  - apply land_0xf_range.
  - apply encoderCode_range.
  - apply encoderCode_range.
  - destruct (step_total e levelA levelB Hok) as (e' & Hstep & _).
    unfold encoderDirection in Hstep.
    destruct (table_get _ _ _) as [next |]; [ now exists next | discriminate ].
  - destruct (step_total e levelA levelB Hok) as (e' & Hstep & _).
    now exists e'.
Qed.

(** *** Repeated and consecutive calls *)

Lemma twice_same_levels (e : encoderStruct) (a b : bool) :
  rowOK e ->
  exists e1 e2,
    encoderDirection a b e = Some e1 /\
    encoderDirection a b e1 = Some e2 /\
    direction e2 = 0.
Proof.
  intros H. step_cases e a b H;
    (eexists; eexists; split; [ reflexivity | split; reflexivity ]).
Qed.

(** C5 -- In every state reached from START, two calls in a row on the same
    levels both run, and the second one reports no direction. *)
Theorem duplicate_call_silent
  (pinA pinB : Z) (samples : list (bool * bool)) (e : encoderStruct)
  (levelA levelB : bool)
  (Hreach : encoderRun (encoderInit pinA pinB) samples = Some e) :
  exists e1 e2,
    encoderDirection levelA levelB e = Some e1 /\
    encoderDirection levelA levelB e1 = Some e2 /\
    direction e2 = 0.
Proof.
  apply twice_same_levels. exact (reached_rowOK _ _ _ _ Hreach).
Qed.

Lemma duplicate_call_silent_witness :
  encoderRun (encoderInit 23 24) (map levelsOfCode [1; 0; 2]) =
    Some (mkEncoder 23 24 1 0) /\
  exists e1 e2,
    encoderDirection true true (mkEncoder 23 24 1 0) = Some e1 /\
    encoderDirection true true e1 = Some e2 /\
    direction e2 = 0.
Proof.
  split; [ reflexivity | ].
  exact (duplicate_call_silent 23 24 (map levelsOfCode [1; 0; 2])
           (mkEncoder 23 24 1 0) true true eq_refl).
Defined.

(** C9 -- A call that reports a direction leaves a state whose low nibble is
    0 (the START row), and whatever the levels of the next call, that call
    runs and reports no direction. *)
Theorem event_then_silence
  (e e' : encoderStruct) (levelA levelB : bool)
  (Hstep : encoderDirection levelA levelB e = Some e')
  (Hevent : direction e' <> 0) :
  Z.land (state e') 0xf = 0 /\
  forall levelA' levelB',
    exists e'', encoderDirection levelA' levelB' e' = Some e'' /\
                direction e'' = 0.
Proof.
  unfold encoderDirection in Hstep.
  destruct (table_get _ _ _) as [st |] eqn:Hget; [ | discriminate ].
  injection Hstep as <-. cbn [state direction] in *.
  apply table_entry in Hget. cbn [In] in Hget.
  repeat (destruct Hget as [<- | Hget]); try contradiction;
    try (exfalso; apply Hevent; reflexivity);
    (split; [ reflexivity | ]);
    intros [|] [|]; eexists; split; reflexivity.
Qed.

Lemma event_then_silence_witness :
  encoderDirection true true (mkEncoder 23 24 5 0) =
    Some (mkEncoder 23 24 0x20 1) /\
  direction (mkEncoder 23 24 0x20 1) <> 0 /\
  Z.land (state (mkEncoder 23 24 0x20 1)) 0xf = 0 /\
  forall levelA' levelB',
    exists e'', encoderDirection levelA' levelB' (mkEncoder 23 24 0x20 1) = Some e'' /\
                direction e'' = 0.
Proof.
  split; [ reflexivity | ].
  split; [ discriminate | ].
  apply (event_then_silence (mkEncoder 23 24 5 0) (mkEncoder 23 24 0x20 1) true true);
    [ reflexivity | discriminate ].
Defined.

(** *** Hysteresis *)

(** C7 -- From START, a run of fewer than four calls goes through and
    reports no direction on any of its calls. *)
Theorem no_event_before_four_calls
  (pinA pinB : Z) (samples : list (bool * bool))
  (Hshort : (length samples < 4)%nat) :
  exists tr,
    encoderTrace (encoderInit pinA pinB) samples = Some tr /\
    Forall (fun e => direction e = 0) tr.
Proof.
  destruct samples as [| [[|] [|]] [| [[|] [|]] [| [[|] [|]] [| x rest]]]];
    cbn [length] in Hshort; try lia;
    (eexists; split; [ reflexivity | repeat constructor ]).
Qed.

Lemma no_event_before_four_calls_witness :
  (length (map levelsOfCode [1; 0; 2]%Z) < 4)%nat /\
  exists tr,
    encoderTrace (encoderInit 23 24) (map levelsOfCode [1; 0; 2]) = Some tr /\
    Forall (fun e => direction e = 0) tr.
Proof.
  split; [ vm_compute; lia | ].
  apply (no_event_before_four_calls 23 24 (map levelsOfCode [1; 0; 2])).
  vm_compute; lia.
Defined.

(** Four calls are enough for an event, in either sense. *)
Lemma event_at_fourth_call (pinA pinB : Z) :
  observe (encoderTrace (encoderInit pinA pinB) (map levelsOfCode [1; 0; 2; 3]))
    = Some [ (2, 0); (3, 0); (1, 0); (0x10, -1) ] /\
  observe (encoderTrace (encoderInit pinA pinB) (map levelsOfCode [2; 0; 1; 3]))
    = Some [ (4, 0); (6, 0); (5, 0); (0x20, 1) ].
Proof. split; reflexivity. Qed.
(** *** Illegal codes *)

Lemma illegal_after_step (e0 e : encoderStruct) (a b : bool) :
  rowOK e0 ->
  encoderDirection a b e0 = Some e ->
  exists e',
    encoderDirection (negb a) (negb b) e = Some e' /\
    direction e' = 0 /\
    (Z.land (state e) 0xf <> 0 \/ a = b -> state e' = START) /\
    (Z.land (state e) 0xf = 0 -> a <> b ->
     state e = START /\ state e' = if a then 4 else 2).
Proof.
  intros H. step_cases e0 a b H; intros [= <-];
    (eexists; split; [ reflexivity | ]);
    vm_compute; intuition congruence.
Qed.

(** C4, as the code has it -- In a state reached from START by a run whose
    last call read the levels (levelA, levelB), the call that finds both
    lines changed reports no direction.  It puts the state back to START
    when the decoder is inside a cycle or the two old levels are equal; when
    the decoder is in START with the two lines at different levels, the call
    is taken as the first phase of a new cycle and the state becomes 4 or
    2. *)
Theorem illegal_code_absorbed
  (pinA pinB : Z) (samples : list (bool * bool)) (levelA levelB : bool)
  (e : encoderStruct)
  (Hreach : encoderRun (encoderInit pinA pinB) (samples ++ [(levelA, levelB)])
              = Some e) :
  exists e',
    encoderDirection (negb levelA) (negb levelB) e = Some e' /\
    direction e' = 0 /\
    (Z.land (state e) 0xf <> 0 \/ levelA = levelB -> state e' = START) /\
    (Z.land (state e) 0xf = 0 -> levelA <> levelB ->
     state e = START /\ state e' = if levelA then 4 else 2).
Proof.
  rewrite encoderRun_app in Hreach.
  destruct (encoderRun (encoderInit pinA pinB) samples) as [e0 |] eqn:Hrun;
    [ | discriminate ].
  cbn [encoderRun] in Hreach.
  destruct (encoderDirection levelA levelB e0) as [e1 |] eqn:Hstep;
    [ | discriminate ].
  injection Hreach as <-.
  exact (illegal_after_step e0 e1 levelA levelB (reached_rowOK _ _ _ _ Hrun) Hstep).
Qed.

Lemma illegal_code_absorbed_witness :
  encoderRun (encoderInit 23 24) ([(true, false)] ++ [(false, false)])
    = Some (mkEncoder 23 24 3 0) /\
  exists e',
    encoderDirection (negb false) (negb false) (mkEncoder 23 24 3 0) = Some e' /\
    direction e' = 0 /\
    (Z.land (state (mkEncoder 23 24 3 0)) 0xf <> 0 \/ false = false ->
     state e' = START) /\
    (Z.land (state (mkEncoder 23 24 3 0)) 0xf = 0 -> false <> false ->
     state (mkEncoder 23 24 3 0) = START /\ state e' = if false then 4 else 2).
Proof.
  split; [ reflexivity | ].
  exact (illegal_code_absorbed 23 24 [(true, false)] false false
           (mkEncoder 23 24 3 0) eq_refl).
Defined.

(** The claim of C4 fails in START after the levels (A, B) = (0, 1): the
    call that reads (1, 0), both lines changed, leaves state 2, not START. *)
Lemma illegal_code_leaves_START :
  encoderRun (encoderInit 23 24) [(true, false); (false, true)]
    = Some (mkEncoder 23 24 START 0) /\
  ~ (exists e',
       encoderDirection (negb false) (negb true) (mkEncoder 23 24 START 0)
         = Some e' /\
       state e' = START /\ direction e' = 0).
Proof.
  split; [ reflexivity | ].
  intros (e' & Hstep & Hstate & _).
  vm_compute in Hstep. injection Hstep as <-.
  vm_compute in Hstate. discriminate.
Qed.

(** *** Whole detents *)

Lemma directions_app (l1 l2 : list (bool * bool)) :
  forall e tr1 e1,
  encoderTrace e l1 = Some tr1 ->
  encoderRun e l1 = Some e1 ->
  directions e (l1 ++ l2) =
  option_map (app (map direction tr1)) (directions e1 l2).
Proof.
  unfold directions.
  induction l1 as [| [a b] l1 IH]; intros e tr1 e1 H1 Hrun;
    cbn [app encoderTrace encoderRun] in *.
  - injection H1 as <-. injection Hrun as <-.
    destruct (encoderTrace e l2); reflexivity.
  - destruct (encoderDirection a b e) as [e' |]; [ | discriminate ].
    destruct (encoderTrace e' l1) as [tr |] eqn:Htr; [ | discriminate ].
    injection H1 as <-.
    specialize (IH e' tr e1 Htr Hrun).
    destruct (encoderTrace e' (l1 ++ l2)) as [tr' |];
      destruct (encoderTrace e1 l2) as [tr2 |];
      cbn [option_map] in *; try discriminate; try reflexivity.
    injection IH as IH. cbn [map app]. rewrite IH. reflexivity.
Qed.
(** The first detent from START only brings the decoder in step: no event,
    and the run ends in state 3 (first cycle) or 6 (second cycle). *)
Lemma first_detent (pA pB : Z) :
  encoderTrace (encoderInit pA pB) detentCW
    = Some [ mkEncoder pA pB 4 0; mkEncoder pA pB 0 0;
             mkEncoder pA pB 2 0; mkEncoder pA pB 3 0 ] /\
  encoderRun (encoderInit pA pB) detentCW = Some (mkEncoder pA pB 3 0) /\
  encoderTrace (encoderInit pA pB) detentCCW
    = Some [ mkEncoder pA pB 2 0; mkEncoder pA pB 0 0;
             mkEncoder pA pB 4 0; mkEncoder pA pB 6 0 ] /\
  encoderRun (encoderInit pA pB) detentCCW = Some (mkEncoder pA pB 6 0).
Proof. repeat split. Qed.

(** Every further detent goes once round the cycle of the table and comes
    back to the same state, with one event on its second call. *)
Lemma later_detent (pA pB : Z) :
  encoderTrace (mkEncoder pA pB 3 0) detentCW
    = Some [ mkEncoder pA pB 1 0; mkEncoder pA pB 0x10 (-1);
             mkEncoder pA pB 2 0; mkEncoder pA pB 3 0 ] /\
  encoderRun (mkEncoder pA pB 3 0) detentCW = Some (mkEncoder pA pB 3 0) /\
  encoderTrace (mkEncoder pA pB 6 0) detentCCW
    = Some [ mkEncoder pA pB 5 0; mkEncoder pA pB 0x20 1;
             mkEncoder pA pB 4 0; mkEncoder pA pB 6 0 ] /\
  encoderRun (mkEncoder pA pB 6 0) detentCCW = Some (mkEncoder pA pB 6 0).
Proof. repeat split. Qed.

Lemma later_detents_CW (pA pB : Z) (n : nat) :
  directions (mkEncoder pA pB 3 0) (detents detentCW n)
  = Some (concat (repeat [0; -1; 0; 0] n)).
Proof.
  induction n as [| n IH]; [ reflexivity | ].
  destruct (later_detent pA pB) as (Htr & Hrun & _).
  cbn [detents]. rewrite (directions_app _ _ _ _ _ Htr Hrun), IH.
  reflexivity.
Qed.

Lemma later_detents_CCW (pA pB : Z) (n : nat) :
  directions (mkEncoder pA pB 6 0) (detents detentCCW n)
  = Some (concat (repeat [0; 1; 0; 0] n)).
Proof.
  induction n as [| n IH]; [ reflexivity | ].
  destruct (later_detent pA pB) as (_ & _ & Htr & Hrun).
  cbn [detents]. rewrite (directions_app _ _ _ _ _ Htr Hrun), IH.
  reflexivity.
Qed.

Lemma count_detents (d x : Z) (n : nat) :
  count_occ Z.eq_dec (concat (repeat [0; d; 0; 0] n)) x
  = Nat.mul n (count_occ Z.eq_dec [0; d; 0; 0] x).
Proof.
  induction n as [| n IH]; [ reflexivity | ].
  cbn [repeat concat]. rewrite count_occ_app, IH. cbn [Nat.mul]. reflexivity.
Qed.

(** C3, as the code has it -- Feeding from START the phases of the cycle
    00 -> 01 -> 11 -> 10 -> 00 of (A, B), one per call, the first detent
    reports nothing and every later detent reports one direction, on its
    second call, always of the same sign [d]; the reversed cycle
    00 -> 10 -> 11 -> 01 -> 00 does the same with the opposite sign.  So
    [n + 1] detents give [n] events of one sign and none of the other. *)
Theorem detent_events :
  exists d, (d = 1 \/ d = -1) /\
  forall (pinA pinB : Z) (n : nat),
    directions (encoderInit pinA pinB) (detents detentCW (S n))
      = Some ([0; 0; 0; 0] ++ concat (repeat [0; d; 0; 0] n)) /\
    directions (encoderInit pinA pinB) (detents detentCCW (S n))
      = Some ([0; 0; 0; 0] ++ concat (repeat [0; - d; 0; 0] n)) /\
    countEvents d (directions (encoderInit pinA pinB) (detents detentCW (S n))) = n /\
    countEvents (- d) (directions (encoderInit pinA pinB) (detents detentCW (S n))) = O /\
    countEvents (- d) (directions (encoderInit pinA pinB) (detents detentCCW (S n))) = n /\
    countEvents d (directions (encoderInit pinA pinB) (detents detentCCW (S n))) = O.
Proof.
  exists (-1). split; [ now right | ]. intros pA pB n.
  destruct (first_detent pA pB) as (Htr & Hrun & Htr' & Hrun').
  assert (Hcw : directions (encoderInit pA pB) (detents detentCW (S n))
                = Some ([0; 0; 0; 0] ++ concat (repeat [0; -1; 0; 0] n))).
  { cbn [detents].
    rewrite (directions_app _ _ _ _ _ Htr Hrun), later_detents_CW. reflexivity. }
  assert (Hccw : directions (encoderInit pA pB) (detents detentCCW (S n))
                 = Some ([0; 0; 0; 0] ++ concat (repeat [0; 1; 0; 0] n))).
  { cbn [detents].
    rewrite (directions_app _ _ _ _ _ Htr' Hrun'), later_detents_CCW. reflexivity. }
  change (- -1) with 1.
  rewrite Hcw, Hccw. cbn [countEvents].
  rewrite !count_occ_app, !count_detents.
  repeat split; try reflexivity; cbn; lia.
Qed.

(** The claim of C3 fails on two detents from START: the eight calls of the
    first cycle report a single -1 and no +1, where the claim has two events
    +1 and no -1; and with the two lines exchanged (the second cycle) they
    report a single +1, still not two. *)
Lemma two_detents_refuted :
  directions (encoderInit 23 24) (detents detentCW 2)
    = Some [0; 0; 0; 0; 0; -1; 0; 0] /\
  ~ (countEvents 1 (directions (encoderInit 23 24) (detents detentCW 2)) = 2%nat /\
     countEvents (-1) (directions (encoderInit 23 24) (detents detentCW 2)) = 0%nat) /\
  directions (encoderInit 23 24) (detents detentCCW 2)
    = Some [0; 0; 0; 0; 0; 1; 0; 0] /\
  ~ (countEvents 1 (directions (encoderInit 23 24) (detents detentCCW 2)) = 2%nat) /\
  ~ (countEvents (-1) (directions (encoderInit 23 24) (detents detentCCW 2)) = 2%nat).
Proof.
  split; [ reflexivity | ].
  split; [ intros [H _]; vm_compute in H; discriminate | ].
  split; [ reflexivity | ].
  split; intros H; vm_compute in H; discriminate.
Qed.

End RotencPiProofs.

(* ------------------------------------------------------------------------- *)
(** ** Properties of [encoderPulse]                                           *)
(* ------------------------------------------------------------------------- *)

Module IQRotProofs.
Import IQRot.

Lemma pulseCode_range (a b : bool) : 0 <= pulseCode a b <= 3.
Proof. destruct a, b; vm_compute; split; discriminate. Qed.

(** C10 -- A call of [encoderPulse] that gets past the guard and samples
    the code already held in [lastEncoded] leaves [encoderPos] as it was:
    the sum is then 0, 5, 10 or 15, which is neither an increment nor a
    decrement pattern.  [lastEncoded] keeps its value too. *)
Theorem repeated_code_no_tick
  (g : encoderGlobals) (levelA levelB : bool)
  (Hcompleted : inCriticalSection g <> TRUE)
  (Hsame : lastEncoded g = pulseCode levelA levelB) :
  In (pulseSum (lastEncoded g) (pulseCode levelA levelB)) [0; 5; 10; 15] /\
  isIncrement (pulseSum (lastEncoded g) (pulseCode levelA levelB)) = false /\
  isDecrement (pulseSum (lastEncoded g) (pulseCode levelA levelB)) = false /\
  encoderPos (encoderPulse levelA levelB g) = encoderPos g /\
  lastEncoded (encoderPulse levelA levelB g) = lastEncoded g.
Proof.
  unfold encoderPulse.
  destruct (inCriticalSection g =? TRUE) eqn:Hflag;
    [ apply Z.eqb_eq in Hflag; contradiction | ].
  rewrite Hsame.
  destruct levelA, levelB; cbn [encoderPos lastEncoded];
    (split; [ vm_compute; auto 6 | ]);
    repeat split.
Qed.

Lemma repeated_code_no_tick_witness :
  inCriticalSection (mkGlobals 7 2 0 FALSE) <> TRUE /\
  lastEncoded (mkGlobals 7 2 0 FALSE) = pulseCode true false /\
  encoderPos (encoderPulse true false (mkGlobals 7 2 0 FALSE)) = 7.
Proof.
  split; [ discriminate | ].
  split; [ reflexivity | ].
  apply (repeated_code_no_tick (mkGlobals 7 2 0 FALSE) true false);
    [ discriminate | reflexivity ].
Defined.

(** For contrast, a changed code does move the position. *)
Lemma changed_code_ticks :
  encoderPos (encoderPulse false true (mkGlobals 7 0 0 FALSE)) = 6 /\
  encoderPos (encoderPulse true false (mkGlobals 7 0 0 FALSE)) = 8.
Proof. split; reflexivity. Qed.

End IQRotProofs.

(* ------------------------------------------------------------------------- *)
(** ** More on the full-step decoder                                          *)
(* ------------------------------------------------------------------------- *)

Module RotencPiMore.
Import RotencPi RotencPiProofs.

Lemma table_get_row (r c v : Z) :
  table_get encoderStateTable r c = Some v -> 0 <= r <= 6.
Proof.
  unfold table_get.
  destruct (r <? 0) eqn:Hneg; [ discriminate | ].
  apply Z.ltb_ge in Hneg. cbn [orb].
  destruct (c <? 0); [ discriminate | ].
  destruct (nth_error encoderStateTable (Z.to_nat r)) as [row |] eqn:Hrow;
    [ | discriminate ].
  intros _.
  assert (Hlen : (Z.to_nat r < length encoderStateTable)%nat)
    by (apply nth_error_Some; congruence).
  cbn [encoderStateTable length] in Hlen. lia.
Qed.

Lemma defined_rowOK (e e' : encoderStruct) (a b : bool) :
  encoderDirection a b e = Some e' -> rowOK e.
Proof.
  unfold encoderDirection, rowOK.
  destruct (table_get _ _ _) as [v |] eqn:Hget; [ | discriminate ].
  intros _. apply table_get_row in Hget. lia.
Qed.

(** X1 -- The routine has a result exactly when the low nibble of the stored
    state is at most 6: the mask [0xf] lets the values 7 to 15 through, and
    for those the table has no row. *)
Theorem encoderDirection_defined_iff
  (encoder : encoderStruct) (levelA levelB : bool) :
  (exists e', encoderDirection levelA levelB encoder = Some e') <->
  Z.land (state encoder) 0xf <= 6.
Proof.
  split.
  - intros (e' & H). exact (defined_rowOK _ _ _ _ H).
  - intros H. destruct (step_total encoder levelA levelB H) as (e' & He & _).
    now exists e'.
Qed.

(** X2 -- A direction is only ever reported by a call that reads both lines
    high: -1 comes from row 1 and leaves state 0x10, +1 comes from row 5 and
    leaves state 0x20. *)
Theorem event_only_with_both_lines_high
  (e e' : encoderStruct) (levelA levelB : bool)
  (Hstep : encoderDirection levelA levelB e = Some e')
  (Hevent : direction e' <> 0) :
  levelA = true /\ levelB = true /\
  ((direction e' = -1 /\ Z.land (state e) 0xf = 1 /\ state e' = 0x10) \/
   (direction e' = 1 /\ Z.land (state e) 0xf = 5 /\ state e' = 0x20)).
Proof.
  pose proof (defined_rowOK _ _ _ _ Hstep) as Hok.
  revert Hstep.
  step_cases e levelA levelB Hok; intros [= <-];
    cbn [direction state] in *;
    try (exfalso; apply Hevent; reflexivity);
    (split; [ reflexivity | split; [ reflexivity | ] ]);
    [ left | right ]; repeat split; assumption.
Qed.

Lemma event_only_with_both_lines_high_witness :
  encoderDirection true true (mkEncoder 23 24 1 0)
    = Some (mkEncoder 23 24 0x10 (-1)) /\
  direction (mkEncoder 23 24 0x10 (-1)) <> 0 /\
  true = true /\ true = true /\
  ((direction (mkEncoder 23 24 0x10 (-1)) = -1 /\
    Z.land (state (mkEncoder 23 24 1 0)) 0xf = 1 /\
    state (mkEncoder 23 24 0x10 (-1)) = 0x10) \/
   (direction (mkEncoder 23 24 0x10 (-1)) = 1 /\
    Z.land (state (mkEncoder 23 24 1 0)) 0xf = 5 /\
    state (mkEncoder 23 24 0x10 (-1)) = 0x20)).
Proof.
  split; [ reflexivity | ].
  split; [ discriminate | ].
  apply (event_only_with_both_lines_high
           (mkEncoder 23 24 1 0) (mkEncoder 23 24 0x10 (-1)) true true);
    [ reflexivity | discriminate ].
Defined.

(** X3 -- Whatever the decoder went through before, a call that reads both
    lines high puts it in the START row, and the cycle of codes 1, 0, 2, 3
    that follows is reported once, as -1 on its last call; the cycle 2, 0,
    1, 3 is reported once as +1. *)
Theorem both_lines_high_resynchronises
  (e e0 : encoderStruct)
  (Hstep : encoderDirection true true e = Some e0) :
  Z.land (state e0) 0xf = 0 /\
  directions e0 (map levelsOfCode [1; 0; 2; 3]) = Some [0; 0; 0; -1] /\
  directions e0 (map levelsOfCode [2; 0; 1; 3]) = Some [0; 0; 0; 1].
Proof.
  pose proof (defined_rowOK _ _ _ _ Hstep) as Hok.
  revert Hstep.
  destruct (rowOK_cases e Hok) as (r & R & C).
  rewrite (encoderDirection_row e true true r R).
  repeat (destruct C as [C | C]); rewrite C in R |- *; clear r C;
    cbn [option_map]; intros [= <-]; repeat split.
Qed.

Lemma both_lines_high_resynchronises_witness :
  encoderDirection true true (mkEncoder 23 24 6 0)
    = Some (mkEncoder 23 24 0 0) /\
  Z.land (state (mkEncoder 23 24 0 0)) 0xf = 0 /\
  directions (mkEncoder 23 24 0 0) (map levelsOfCode [1; 0; 2; 3])
    = Some [0; 0; 0; -1] /\
  directions (mkEncoder 23 24 0 0) (map levelsOfCode [2; 0; 1; 3])
    = Some [0; 0; 0; 1].
Proof.
  split; [ reflexivity | ].
  exact (both_lines_high_resynchronises
           (mkEncoder 23 24 6 0) (mkEncoder 23 24 0 0) eq_refl).
Defined.

End RotencPiMore.

(* ------------------------------------------------------------------------- *)
(** ** More on [encoderPulse]                                                 *)
(* ------------------------------------------------------------------------- *)

Module IQRotMore.
Import IQRot IQRotMain Tracking.

(** *** 32-bit arithmetic *)

Lemma to_int_small (x : Z) : - 2 ^ 31 <= x < 2 ^ 31 -> to_int x = x.
Proof. intros H. unfold to_int. rewrite Z.mod_small; lia. Qed.

Lemma to_int_add (a b : Z) : to_int (to_int a + b) = to_int (a + b).
Proof.
  unfold to_int.
  replace ((a + 2 ^ 31) mod 2 ^ 32 - 2 ^ 31 + b + 2 ^ 31)
    with ((a + 2 ^ 31) mod 2 ^ 32 + b) by lia.
  rewrite Zplus_mod_idemp_l. f_equal. f_equal. lia.
Qed.

Lemma to_int_mod4 (x : Z) : to_int x mod 4 = x mod 4.
Proof.
  unfold to_int.
  pose proof (Z.div_mod (x + 2 ^ 31) (2 ^ 32) ltac:(lia)) as H.
  replace ((x + 2 ^ 31) mod 2 ^ 32 - 2 ^ 31)
    with (x + (- (2 ^ 30) * ((x + 2 ^ 31) / 2 ^ 32)) * 4) by lia.
  apply Z_mod_plus_full.
Qed.

(** *** One call *)

Lemma quarter_range (prev cur : bool * bool) : -1 <= quarter prev cur <= 1.
Proof.
  destruct prev as [[|] [|]], cur as [[|] [|]]; vm_compute; split; discriminate.
Qed.

Lemma quarter_antisym (prev cur : bool * bool) :
  quarter cur prev = - quarter prev cur.
Proof. destruct prev as [[|] [|]], cur as [[|] [|]]; reflexivity. Qed.

Lemma pulse_step (g : encoderGlobals) (prev cur : bool * bool) :
  inCriticalSection g <> TRUE ->
  lastEncoded g = pulseCode (fst prev) (snd prev) ->
  encoderPulse (fst cur) (snd cur) g =
  mkGlobals (if quarter prev cur =? 0 then encoderPos g
             else to_int (encoderPos g + quarter prev cur))
            (pulseCode (fst cur) (snd cur)) (encoded g) FALSE.
Proof.
  intros Hflag Hlast. unfold encoderPulse.
  destruct (inCriticalSection g =? TRUE) eqn:E;
    [ apply Z.eqb_eq in E; contradiction | ].
  rewrite Hlast.
  destruct prev as [[|] [|]], cur as [[|] [|]]; reflexivity.
Qed.

(** X4 -- In a call that gets past the guard, with [lastEncoded] holding the
    code of the previous levels: when exactly one line has changed,
    [encoderPos] moves by one (up or down, in 32-bit arithmetic); when both
    lines have changed at once it does not move. *)
Theorem pulse_counts_single_line_changes
  (g : encoderGlobals) (a0 b0 levelA levelB : bool)
  (Hcompleted : inCriticalSection g <> TRUE)
  (Hlast : lastEncoded g = pulseCode a0 b0) :
  (xorb a0 levelA <> xorb b0 levelB ->
   encoderPos (encoderPulse levelA levelB g) = to_int (encoderPos g + 1) \/
   encoderPos (encoderPulse levelA levelB g) = to_int (encoderPos g - 1)) /\
  (a0 <> levelA -> b0 <> levelB ->
   encoderPos (encoderPulse levelA levelB g) = encoderPos g).
Proof.
  pose proof (pulse_step g (a0, b0) (levelA, levelB) Hcompleted Hlast) as Hs.
  cbn [fst snd] in Hs. rewrite Hs. cbn [encoderPos].
  destruct a0, b0, levelA, levelB; cbn; split; intros; try congruence; auto.
Qed.

Lemma pulse_counts_single_line_changes_witness :
  inCriticalSection (mkGlobals 125 3 0 FALSE) <> TRUE /\
  lastEncoded (mkGlobals 125 3 0 FALSE) = pulseCode true true /\
  ((xorb true false <> xorb true true ->
    encoderPos (encoderPulse false true (mkGlobals 125 3 0 FALSE))
      = to_int (encoderPos (mkGlobals 125 3 0 FALSE) + 1) \/
    encoderPos (encoderPulse false true (mkGlobals 125 3 0 FALSE))
      = to_int (encoderPos (mkGlobals 125 3 0 FALSE) - 1)) /\
   (true <> false -> true <> true ->
    encoderPos (encoderPulse false true (mkGlobals 125 3 0 FALSE))
      = encoderPos (mkGlobals 125 3 0 FALSE))).
Proof.
  split; [ discriminate | ].
  split; [ reflexivity | ].
  apply (pulse_counts_single_line_changes
           (mkGlobals 125 3 0 FALSE) true true false true);
    [ discriminate | reflexivity ].
Defined.

(** X5 -- A change of levels followed by the return to the old levels
    leaves [encoderPos] where it was: a bounce is counted up and down
    again. *)
Theorem bounce_cancels
  (g : encoderGlobals) (a0 b0 levelA levelB : bool)
  (Hcompleted : inCriticalSection g <> TRUE)
  (Hlast : lastEncoded g = pulseCode a0 b0)
  (Hrange : - 2 ^ 31 <= encoderPos g < 2 ^ 31) :
  encoderPos (encoderPulse a0 b0 (encoderPulse levelA levelB g)) = encoderPos g /\
  lastEncoded (encoderPulse a0 b0 (encoderPulse levelA levelB g)) = lastEncoded g.
Proof.
  pose proof (pulse_step g (a0, b0) (levelA, levelB) Hcompleted Hlast) as Hs.
  cbn [fst snd] in Hs. rewrite Hs.
  match goal with
  | |- context [encoderPulse a0 b0 ?h] =>
      pose proof (pulse_step h (levelA, levelB) (a0, b0)) as Hs'
  end.
  cbn [fst snd inCriticalSection lastEncoded] in Hs'.
  rewrite Hs' by (discriminate || reflexivity).
  cbn [encoderPos lastEncoded]. split; [ | now rewrite Hlast ].
  rewrite (quarter_antisym (a0, b0) (levelA, levelB)).
  pose proof (quarter_range (a0, b0) (levelA, levelB)) as Hq.
  destruct (quarter (a0, b0) (levelA, levelB) =? 0) eqn:E.
  - apply Z.eqb_eq in E. rewrite E. reflexivity.
  - apply Z.eqb_neq in E.
    destruct (- quarter (a0, b0) (levelA, levelB) =? 0) eqn:E';
      [ apply Z.eqb_eq in E'; lia | ].
    rewrite to_int_add.
    replace (encoderPos g + quarter (a0, b0) (levelA, levelB)
             + - quarter (a0, b0) (levelA, levelB))
      with (encoderPos g) by lia.
    apply to_int_small. lia.
Qed.

Lemma bounce_cancels_witness :
  inCriticalSection (mkGlobals 125 3 0 FALSE) <> TRUE /\
  lastEncoded (mkGlobals 125 3 0 FALSE) = pulseCode true true /\
  - 2 ^ 31 <= encoderPos (mkGlobals 125 3 0 FALSE) < 2 ^ 31 /\
  encoderPos (encoderPulse true true (encoderPulse true false (mkGlobals 125 3 0 FALSE)))
    = encoderPos (mkGlobals 125 3 0 FALSE) /\
  lastEncoded (encoderPulse true true (encoderPulse true false (mkGlobals 125 3 0 FALSE)))
    = lastEncoded (mkGlobals 125 3 0 FALSE).
Proof.
  split; [ discriminate | ].
  split; [ reflexivity | ].
  split; [ vm_compute; split; [ discriminate | reflexivity ] | ].
  apply (bounce_cancels (mkGlobals 125 3 0 FALSE) true true true false);
    [ discriminate | reflexivity
    | vm_compute; split; [ discriminate | reflexivity ] ].
Defined.

(** *** Runs of calls *)

Lemma pulseRun_cons (g : encoderGlobals) (cur : bool * bool)
  (rest : list (bool * bool)) :
  pulseRun g (cur :: rest) = pulseRun (encoderPulse (fst cur) (snd cur) g) rest.
Proof. reflexivity. Qed.

Lemma mod4_shift (x y k : Z) : x = y + k * 4 -> x mod 4 = y mod 4.
Proof. intros ->. apply Z_mod_plus_full. Qed.

Lemma ring_step (prev cur : bool * bool) :
  oneLine prev cur = true ->
  exists k,
    quarter prev cur - ringIndex (pulseCode (fst cur) (snd cur))
    = - ringIndex (pulseCode (fst prev) (snd prev)) + k * 4.
Proof.
  destruct prev as [[|] [|]], cur as [[|] [|]]; cbn; intros H;
    try discriminate H;
    first [ exists 0; reflexivity | exists 1; reflexivity
          | exists (-1); reflexivity ].
Qed.

Lemma phase_step (g : encoderGlobals) (prev cur : bool * bool) :
  inCriticalSection g <> TRUE ->
  lastEncoded g = pulseCode (fst prev) (snd prev) ->
  oneLine prev cur = true ->
  let g' := encoderPulse (fst cur) (snd cur) g in
  (encoderPos g' - ringIndex (lastEncoded g')) mod 4
  = (encoderPos g - ringIndex (lastEncoded g)) mod 4.
Proof.
  intros Hflag Hlast Hone. cbv zeta.
  rewrite (pulse_step g prev cur Hflag Hlast). cbn [encoderPos lastEncoded].
  rewrite Hlast.
  destruct (ring_step prev cur Hone) as (k & Hk).
  destruct (quarter prev cur =? 0) eqn:E.
  - apply Z.eqb_eq in E. apply (mod4_shift _ _ k). lia.
  - rewrite Zminus_mod, to_int_mod4, <- Zminus_mod.
    apply (mod4_shift _ _ k). lia.
Qed.

(** X6 -- Along any signal in which the two lines never change together,
    [encoderPos] stays locked to the phase: the difference between the
    position and the place of [lastEncoded] on the ring 3, 1, 0, 2 keeps its
    remainder modulo 4, also across a 32-bit wrap.  In particular the
    position has changed by a multiple of 4 each time the lines are back at
    the levels they started from. *)
Theorem position_locked_to_phase (samples : list (bool * bool)) :
  forall (g : encoderGlobals) (prev : bool * bool)
    (Hcompleted : inCriticalSection g <> TRUE)
    (Hlast : lastEncoded g = pulseCode (fst prev) (snd prev))
    (Hlegal : legalFrom prev samples = true),
  (encoderPos (pulseRun g samples)
   - ringIndex (lastEncoded (pulseRun g samples))) mod 4
  = (encoderPos g - ringIndex (lastEncoded g)) mod 4.
Proof.
  induction samples as [| cur rest IH]; intros g prev Hflag Hlast Hlegal.
  - reflexivity.
  - cbn [legalFrom] in Hlegal. apply andb_prop in Hlegal as [Hone Hrest].
    rewrite pulseRun_cons.
    rewrite (IH (encoderPulse (fst cur) (snd cur) g) cur).
    + exact (phase_step g prev cur Hflag Hlast Hone).
    + rewrite (pulse_step g prev cur Hflag Hlast). cbn. discriminate.
    + rewrite (pulse_step g prev cur Hflag Hlast). reflexivity.
    + exact Hrest.
Qed.

Lemma position_locked_to_phase_witness :
  inCriticalSection (mkGlobals 125 3 0 FALSE) <> TRUE /\
  lastEncoded (mkGlobals 125 3 0 FALSE) = pulseCode (fst (true, true)) (snd (true, true)) /\
  legalFrom (true, true) [(false, true); (false, false); (false, true); (true, true)]
    = true /\
  (encoderPos (pulseRun (mkGlobals 125 3 0 FALSE)
                 [(false, true); (false, false); (false, true); (true, true)])
   - ringIndex (lastEncoded (pulseRun (mkGlobals 125 3 0 FALSE)
                 [(false, true); (false, false); (false, true); (true, true)])))
    mod 4
  = (encoderPos (mkGlobals 125 3 0 FALSE)
     - ringIndex (lastEncoded (mkGlobals 125 3 0 FALSE))) mod 4.
Proof.
  split; [ discriminate | ].
  split; [ reflexivity | ].
  split; [ reflexivity | ].
  apply (position_locked_to_phase
           [(false, true); (false, false); (false, true); (true, true)]
           (mkGlobals 125 3 0 FALSE) (true, true));
    [ discriminate | reflexivity | reflexivity ].
Defined.

End IQRotMore.

(* ------------------------------------------------------------------------- *)
(** ** The two decoders agree                                                 *)
(* ------------------------------------------------------------------------- *)

Module TrackingProofs.
Import RotencPi RotencPiProofs IQRot IQRotMain Tracking IQRotMore.

Lemma nibble_cases (s : Z) :
  exists r, Z.land s 0xf = r /\
    (r = 0 \/ r = 1 \/ r = 2 \/ r = 3 \/ r = 4 \/ r = 5 \/ r = 6 \/ r = 7 \/
     r = 8 \/ r = 9 \/ r = 10 \/ r = 11 \/ r = 12 \/ r = 13 \/ r = 14 \/ r = 15).
Proof.
  pose proof (land_0xf_range s). eexists. split; [ reflexivity | lia ].
Qed.

(** One legal sample: the full-step decoder stays in phase, and the quarter
    step counted by [encoderPulse] is accounted for by the reported
    direction and the move between rows. *)
Lemma tracking_step (e : encoderStruct) (prev cur : bool * bool) :
  inPhase e prev = true ->
  oneLine prev cur = true ->
  exists e',
    encoderDirection (fst cur) (snd cur) e = Some e' /\
    inPhase e' cur = true /\
    quarter prev cur + offsetOf (state e)
    = 4 * direction e' + offsetOf (state e').
Proof.
  unfold inPhase, offsetOf.
  destruct (nibble_cases (state e)) as (r & R & C).
  rewrite (encoderDirection_row e (fst cur) (snd cur) r R), R.
  destruct prev as [a0 b0], cur as [a b]. cbn [fst snd]. clear R.
  repeat (destruct C as [C | C]); subst r;
    destruct a0, b0; cbn; intros Hphase; try discriminate Hphase;
    destruct a, b; cbn; intros Hone; try discriminate Hone;
    (eexists; split; [ reflexivity | split; reflexivity ]).
Qed.

Lemma last_cons (tr : list encoderStruct) :
  forall x d : encoderStruct, last (x :: tr) d = last tr x.
Proof.
  induction tr as [| y tr IH]; intros x d; [ reflexivity | ].
  change (last (x :: y :: tr) d) with (last (y :: tr) d).
  rewrite (IH y d), (IH y x). reflexivity.
Qed.

Lemma tracking_run (samples : list (bool * bool)) :
  forall (e : encoderStruct) (g : encoderGlobals) (prev : bool * bool),
  inPhase e prev = true ->
  inCriticalSection g <> TRUE ->
  lastEncoded g = pulseCode (fst prev) (snd prev) ->
  legalFrom prev samples = true ->
  - 2 ^ 31 + Z.of_nat (length samples) <= encoderPos g
    <= 2 ^ 31 - 1 - Z.of_nat (length samples) ->
  exists tr,
    encoderTrace e samples = Some tr /\
    encoderPos (pulseRun g samples) - encoderPos g
    = 4 * netEvents tr + offsetOf (state (last tr e)) - offsetOf (state e).
Proof.
  induction samples as [| cur rest IH];
    intros e g prev Hphase Hflag Hlast Hlegal Hrange.
  - exists []. split; [ reflexivity | ]. cbn. lia.
  - cbn [legalFrom] in Hlegal. apply andb_prop in Hlegal as [Hone Hrest].
    destruct (tracking_step e prev cur Hphase Hone) as (e' & Hstep & Hphase' & Hq).
    pose proof (pulse_step g prev cur Hflag Hlast) as Hpulse.
    pose proof (quarter_range prev cur) as Hqr.
    cbn [length] in Hrange. rewrite Nat2Z.inj_succ in Hrange.
    assert (Hpos : encoderPos (encoderPulse (fst cur) (snd cur) g)
                   = encoderPos g + quarter prev cur).
    { rewrite Hpulse. cbn [encoderPos].
      destruct (quarter prev cur =? 0) eqn:E.
      - apply Z.eqb_eq in E. lia.
      - apply to_int_small. lia. }
    destruct (IH e' (encoderPulse (fst cur) (snd cur) g) cur Hphase')
      as (tr & Htr & Hsum).
    + rewrite Hpulse. cbn. discriminate.
    + rewrite Hpulse. reflexivity.
    + exact Hrest.
    + rewrite Hpos. lia.
    + exists (e' :: tr). split.
      * destruct cur as [a b]. cbn [encoderTrace fst snd] in *.
        rewrite Hstep, Htr. reflexivity.
      * rewrite pulseRun_cons, (last_cons tr e' e).
        unfold netEvents in *. cbn [map fold_right]. lia.
Qed.

(** X7 -- Started together with both lines high and fed the same signal, in
    which the two lines never change together, the two decoders agree: the
    change of [encoderPos] is four times the sum of the directions reported
    by [encoderDirection], plus the quarter steps (between -3 and 3) that
    the row reached stands for.  No detent is lost or invented, whatever the
    bouncing between neighbouring phases. *)
Theorem decoders_agree
  (samples : list (bool * bool)) (e : encoderStruct) (g : encoderGlobals)
  (Hrest : Z.land (state e) 0xf = 0)
  (Hcompleted : inCriticalSection g <> TRUE)
  (Hlast : lastEncoded g = pulseCode true true)
  (Hlegal : legalFrom (true, true) samples = true)
  (Hrange : - 2 ^ 31 + Z.of_nat (length samples) <= encoderPos g
            <= 2 ^ 31 - 1 - Z.of_nat (length samples)) :
  exists tr,
    encoderTrace e samples = Some tr /\
    encoderPos (pulseRun g samples) - encoderPos g
    = 4 * netEvents tr + offsetOf (state (last tr e)) /\
    -3 <= offsetOf (state (last tr e)) <= 3.
Proof.
  assert (Hphase : inPhase e (true, true) = true)
    by (unfold inPhase; rewrite Hrest; reflexivity).
  destruct (tracking_run samples e g (true, true) Hphase Hcompleted Hlast
              Hlegal Hrange) as (tr & Htr & Hsum).
  exists tr. split; [ exact Htr | ]. split.
  - assert (H0 : offsetOf (state e) = 0)
      by (unfold offsetOf; rewrite Hrest; reflexivity).
    lia.
  - unfold offsetOf.
    destruct (nibble_cases (state (last tr e))) as (r & R & C). rewrite R.
    clear R. repeat (destruct C as [C | C]); subst r; cbn; lia.
Qed.

Lemma decoders_agree_witness :
  Z.land (state (encoderInit 23 24)) 0xf = 0 /\
  inCriticalSection (mkGlobals 125 3 0 FALSE) <> TRUE /\
  lastEncoded (mkGlobals 125 3 0 FALSE) = pulseCode true true /\
  legalFrom (true, true)
    [(false, true); (false, false); (true, false); (true, true); (false, true)]
    = true /\
  exists tr,
    encoderTrace (encoderInit 23 24)
      [(false, true); (false, false); (true, false); (true, true); (false, true)]
      = Some tr /\
    encoderPos (pulseRun (mkGlobals 125 3 0 FALSE)
      [(false, true); (false, false); (true, false); (true, true); (false, true)])
    - encoderPos (mkGlobals 125 3 0 FALSE)
    = 4 * netEvents tr + offsetOf (state (last tr (encoderInit 23 24))) /\
    -3 <= offsetOf (state (last tr (encoderInit 23 24))) <= 3.
Proof.
  split; [ reflexivity | ].
  split; [ discriminate | ].
  split; [ reflexivity | ].
  split; [ reflexivity | ].
  apply (decoders_agree
           [(false, true); (false, false); (true, false); (true, true); (false, true)]
           (encoderInit 23 24) (mkGlobals 125 3 0 FALSE));
    [ reflexivity | discriminate | reflexivity | reflexivity
    | vm_compute; split; discriminate ].
Defined.

End TrackingProofs.

(* ------------------------------------------------------------------------- *)
(** ** Options, start-up and polling loop of the volume daemon                *)
(* ------------------------------------------------------------------------- *)

Module IQRotMainProofs.
Import IQRot IQRotMain IQRotMore.

Lemma getWiringPiNum_range (pin : Z) : 0 <= getWiringPiNum pin <= 20.
Proof.
  destruct pin as [| p | p]; cbn; try lia.
  do 5 (try destruct p as [p | p |]); cbn; lia.
Qed.

Section Options.

Variable double : Type.
Variable atoi : String.string -> Z.
Variable atof : String.string -> double.
Variable checkFactor : double -> double.

Local Abbreviation params := (paramList double).
Local Abbreviation parse := (parse_opt double atoi atof checkFactor).

Lemma pin_choice (v : Z) :
  let w := getWiringPiNum v in
  (w =? 0) = false -> 1 <= w <= 20.
Proof.
  intros w H. apply Z.eqb_neq in H.
  pose proof (getWiringPiNum_range v). subst w. lia.
Qed.

(** X8 -- The options 'a' and 'b' never leave a wiringPi number 0 in
    [Parameters]: a GPIO number that [getWiringPiNum] maps to 0 -- an
    unlisted one, and also GPIO 17, whose wiringPi number is 0 -- is replaced
    by the default pin (GPIO 23 for A, 24 for B).  In both cases the stored
    wiringPi number is the one of the stored GPIO number, between 1 and 20,
    and the other pin is untouched. *)
Theorem pin_options (arg : String.string) (P : params) :
  let PA := parse 97 arg P in
  let PB := parse 98 arg P in
  (getWiringPiNum (atoi arg) <> 0 -> GPIO_A _ PA = atoi arg /\ GPIO_B _ PB = atoi arg) /\
  (getWiringPiNum (atoi arg) = 0 -> GPIO_A _ PA = 23 /\ GPIO_B _ PB = 24) /\
  WiringPiPin_A _ PA = getWiringPiNum (GPIO_A _ PA) /\
  1 <= WiringPiPin_A _ PA <= 20 /\
  WiringPiPin_B _ PB = getWiringPiNum (GPIO_B _ PB) /\
  1 <= WiringPiPin_B _ PB <= 20 /\
  GPIO_B _ PA = GPIO_B _ P /\ WiringPiPin_B _ PA = WiringPiPin_B _ P /\
  GPIO_A _ PB = GPIO_A _ P /\ WiringPiPin_A _ PB = WiringPiPin_A _ P /\
  getWiringPiNum 17 = 0.
Proof.
  cbv zeta. cbn [parse_opt].
  pose proof (pin_choice (atoi arg)) as Hw. cbv zeta in Hw.
  destruct (getWiringPiNum (atoi arg) =? 0) eqn:E; cbn.
  - apply Z.eqb_eq in E. repeat split; try lia; intros; try lia; congruence.
  - specialize (Hw eq_refl). apply Z.eqb_neq in E.
    repeat split; try lia; intros; try lia; congruence.
Qed.

Lemma parse_opt_keeps (param : Z) (arg : String.string) (P : params) :
  paramsOK _ P -> paramsOK _ (parse param arg P).
Proof.
  intros H.
  destruct param as [| p | p]; try exact H.
  do 7 (try destruct p as [p | p |]); try exact H;
    unfold paramsOK in *; cbn [parse_opt];
    try (pose proof (pin_choice (atoi arg)) as Hw; cbv zeta in Hw;
         destruct (getWiringPiNum (atoi arg) =? 0) eqn:E;
         [ | specialize (Hw eq_refl) ]; cbn; intuition lia);
    repeat match goal with
           | |- context [if ?c then _ else _] => destruct c eqn:?
           end;
    cbn; intuition lia.
Qed.

Lemma default_ok (factor : double) : paramsOK _ (defaultParameters _ factor).
Proof. unfold paramsOK. cbn. intuition lia. Qed.

(** X9 -- Whatever options are given, in whatever order and with whatever
    arguments, [Parameters] ends within its limits: each wiringPi number is
    the one of its GPIO number and lies in 1..20, the initial volume is in
    0..100, the increments in 1..100, the delay in 0..1000 and the debug
    flag is 0 or 1. *)
Theorem options_keep_parameters_valid
  (opts : list (Z * String.string)) (factor : double) :
  paramsOK _ (parseOptions _ atoi atof checkFactor opts (defaultParameters _ factor)).
Proof.
  unfold parseOptions.
  generalize (default_ok factor). generalize (defaultParameters _ factor).
  induction opts as [| [param arg] rest IH]; intros P H; cbn [fold_left].
  - exact H.
  - apply IH. cbn [fst snd]. apply parse_opt_keeps. exact H.
Qed.

Lemma initialIndex_range (P : params) :
  paramsOK _ P -> 0 <= initialIndex _ P <= Increments _ P.
Proof.
  unfold paramsOK, initialIndex. intros (_ & _ & _ & _ & Hi & He & _).
  rewrite to_int_small by nia.
  rewrite Z.quot_div_nonneg by nia. split.
  - apply Z.div_pos; nia.
  - apply Z.div_le_upper_bound; nia.
Qed.

(** X10 -- The volume index that [main] starts from is inside the scale,
    between 0 and the number of increments, for every command line. *)
Theorem initial_index_in_scale
  (opts : list (Z * String.string)) (factor : double) :
  0 <= initialIndex _ (parseOptions _ atoi atof checkFactor opts
                         (defaultParameters _ factor))
    <= Increments _ (parseOptions _ atoi atof checkFactor opts
                       (defaultParameters _ factor)).
Proof. apply initialIndex_range, options_keep_parameters_valid. Qed.

(** *** The polling loop *)

Variable getVolume : Z -> Z -> Z -> Z.

Local Abbreviation body := (mainLoopBody double getVolume).

Ltac loop_cases :=
  repeat match goal with
         | |- context [?x =? ?y] => destruct (Z.eqb_spec x y)
         | |- context [?x >? ?y] => destruct (Z.gtb_spec x y)
         | |- context [?x <? ?y] => destruct (Z.ltb_spec x y)
         | |- context [?x >=? ?y] => destruct (Z.geb_spec x y)
         end; cbn.


(** X12 -- While the current volume is inside the range of the mixer, a
    turn of the loop moves the volume index by one step at most, however
    far [encoderPos] has moved: one step up, stopping at the number of
    increments, if the position is above the last one seen, one step down,
    stopping at 0, if it is below. *)
Theorem loop_moves_one_step
  (P : params) (vmin vmax : Z) (g : encoderGlobals) (l : loopVars)
  (Hinc : 1 <= Increments _ P <= 100)
  (Hidx : 0 <= indexVolume l <= Increments _ P)
  (Hvol : vmin <= currentVolume l <= vmax) :
  indexVolume (snd (fst (body P vmin vmax g l)))
  = (if encoderPos g >? pos l then Z.min (indexVolume l + 1) (Increments _ P)
     else if encoderPos g <? pos l then Z.max (indexVolume l - 1) 0
     else indexVolume l) /\
  Z.abs (indexVolume (snd (fst (body P vmin vmax g l))) - indexVolume l) <= 1.
Proof.
  unfold mainLoopBody.
  rewrite !to_int_small by lia.
  loop_cases; lia.
Qed.

End Options.


Lemma loop_moves_one_step_witness :
  1 <= Increments _ (defaultParameters unit tt) <= 100 /\
  0 <= indexVolume (mkLoop 125 7 35) <= Increments _ (defaultParameters unit tt) /\
  0 <= currentVolume (mkLoop 125 7 35) <= 100 /\
  indexVolume (snd (fst (mainLoopBody unit (fun i _ _ => 5 * i)
                           (defaultParameters unit tt) 0 100
                           (mkGlobals 140 3 0 FALSE) (mkLoop 125 7 35)))) = 8.
Proof.
  split; [ cbn; lia | ].
  split; [ cbn; lia | ].
  split; [ cbn; lia | ].
  destruct (loop_moves_one_step unit (fun i _ _ => 5 * i)
              (defaultParameters unit tt) 0 100
              (mkGlobals 140 3 0 FALSE) (mkLoop 125 7 35)
              ltac:(cbn; lia) ltac:(cbn; lia) ltac:(cbn; lia)) as [H _].
  rewrite H. reflexivity.
Defined.

End IQRotMainProofs.

(* ------------------------------------------------------------------------- *)
(** ** The helpers of the meter test program                                  *)
(* ------------------------------------------------------------------------- *)

Module MeterTestProofs.
Import MeterTest.

(** *** [time_elapsed] *)

Lemma microseconds_mod (sec usec : Z) :
  to_uint32 (to_uint32 (to_uint32 sec * 1000000) + to_uint32 usec)
  = (sec * 1000000 + usec) mod 2 ^ 32.
Proof.
  unfold to_uint32.
  rewrite Zmult_mod_idemp_l, <- Zplus_mod. reflexivity.
Qed.

Lemma time_elapsed_mod (start end_ : timeval) :
  time_elapsed start end_
  = ((tv_sec end_ * 1000000 + tv_usec end_)
     - (tv_sec start * 1000000 + tv_usec start)) mod 2 ^ 32.
Proof.
  unfold time_elapsed. rewrite !microseconds_mod.
  unfold to_uint32. rewrite <- Zminus_mod. reflexivity.
Qed.

(** X13 -- [time_elapsed] returns the exact number of microseconds between
    the two times whenever that number fits 32 bits (a little more than 71
    minutes), although the two intermediate values wrap round; when the end
    lies before the start by less than that, the result is the difference
    plus 2^32, never a negative number. *)
Theorem time_elapsed_exact (start end_ : timeval) :
  let elapsed := (tv_sec end_ * 1000000 + tv_usec end_)
                 - (tv_sec start * 1000000 + tv_usec start) in
  (0 <= elapsed < 2 ^ 32 -> time_elapsed start end_ = elapsed) /\
  (- 2 ^ 32 <= elapsed < 0 -> time_elapsed start end_ = elapsed + 2 ^ 32) /\
  0 <= time_elapsed start end_ < 2 ^ 32.
Proof.
  cbv zeta. rewrite time_elapsed_mod.
  set (d := tv_sec end_ * 1000000 + tv_usec end_
            - (tv_sec start * 1000000 + tv_usec start)).
  repeat split.
  - intros H. apply Z.mod_small. exact H.
  - intros H. rewrite <- (Z_mod_plus_full d 1 (2 ^ 32)).
    rewrite Z.mod_small by lia. lia.
  - apply Z.mod_pos_bound. lia.
  - apply Z.mod_pos_bound. lia.
Qed.

Lemma time_elapsed_exact_witness :
  0 <= (1700004295 * 1000000 + 12) - (1700000000 * 1000000 + 999999) < 2 ^ 32 /\
  time_elapsed (mkTimeval 1700000000 999999) (mkTimeval 1700004295 12)
  = (1700004295 * 1000000 + 12) - (1700000000 * 1000000 + 999999).
Proof.
  split; [ vm_compute; split; [ discriminate | reflexivity ] | ].
  apply (time_elapsed_exact (mkTimeval 1700000000 999999)
                            (mkTimeval 1700004295 12)).
  vm_compute; split; [ discriminate | reflexivity ].
Defined.

(** *** [reverse_string] *)

Lemma buffer_get_mid (pre rest : list Z) (x : Z) :
  buffer_get (pre ++ x :: rest) (length pre) = Some x.
Proof.
  unfold buffer_get. rewrite nth_error_app2 by lia.
  rewrite Nat.sub_diag. reflexivity.
Qed.

Lemma buffer_set_mid (pre rest : list Z) (x v : Z) :
  buffer_set (pre ++ x :: rest) (length pre) v = Some (pre ++ v :: rest).
Proof.
  unfold buffer_set.
  assert (H : (length pre <? length (pre ++ x :: rest))%nat = true).
  { apply Nat.ltb_lt. rewrite length_app. cbn [length]. lia. }
  rewrite H. f_equal.
  rewrite firstn_app, Nat.sub_diag, firstn_all. cbn [firstn].
  rewrite app_nil_r. f_equal.
  rewrite skipn_app, skipn_all2 by lia.
  replace (S (length pre) - length pre)%nat with 1%nat by lia.
  reflexivity.
Qed.

Lemma snoc_cases (l : list Z) : l = [] \/ exists m y, l = m ++ [y].
Proof.
  induction l as [| y m _] using rev_ind; [ now left | right ].
  now exists m, y.
Qed.

(** The loop on a buffer cut at [start] and [end]. *)
Lemma reverse_loop_segment (fuel : nat) :
  forall mid pre post : list Z,
  (length mid + 2 <= 2 * fuel)%nat ->
  reverse_loop fuel (pre ++ mid ++ post) (length pre) (length pre + length mid)
  = Some (pre ++ rev mid ++ post).
Proof.
  induction fuel as [| f IH]; intros mid pre post Hfuel; [ lia | ].
  cbn [reverse_loop].
  destruct mid as [| x t].
  - cbn [length]. rewrite Nat.add_0_r, Nat.ltb_irrefl. reflexivity.
  - assert (Hlt : (length pre <? length pre + length (x :: t))%nat = true)
      by (apply Nat.ltb_lt; cbn [length]; lia).
    rewrite Hlt.
    destruct (snoc_cases t) as [-> | (m & y & ->)].
    + cbn [length app rev]. replace (Nat.pred (length pre + 1)) with (length pre) by lia.
      rewrite buffer_get_mid, buffer_set_mid, buffer_set_mid.
      destruct f as [| f']; [ cbn [length] in Hfuel; lia | ].
      cbn [reverse_loop].
      assert (Hge : (S (length pre) <? length pre)%nat = false)
        by (apply Nat.ltb_ge; lia).
      rewrite Hge. reflexivity.
    + cbn [length] in *. rewrite length_app in *. cbn [length] in *.
      replace (Nat.pred (length pre + S (length m + 1)))
        with (length (pre ++ x :: m)) by (rewrite length_app; cbn [length]; lia).
      cbn [app]. rewrite buffer_get_mid.
      replace (pre ++ x :: (m ++ [y]) ++ post)
        with ((pre ++ x :: m) ++ y :: post)
        by (rewrite <- !app_assoc; reflexivity).
      rewrite buffer_get_mid.
      replace ((pre ++ x :: m) ++ y :: post)
        with (pre ++ x :: m ++ y :: post)
        by (rewrite <- !app_assoc; reflexivity).
      rewrite buffer_set_mid.
      replace (pre ++ y :: m ++ y :: post)
        with ((pre ++ y :: m) ++ y :: post)
        by (rewrite <- !app_assoc; reflexivity).
      replace (length (pre ++ x :: m)) with (length (pre ++ y :: m))
        by (rewrite !length_app; reflexivity).
      rewrite buffer_set_mid.
      replace ((pre ++ y :: m) ++ x :: post)
        with ((pre ++ [y]) ++ m ++ x :: post)
        by (rewrite <- !app_assoc; reflexivity).
      replace (S (length pre)) with (length (pre ++ [y]))
        by (rewrite length_app; cbn [length]; lia).
      replace (length (pre ++ y :: m)) with (length (pre ++ [y]) + length m)%nat
        by (rewrite !length_app; cbn [length]; lia).
      rewrite IH by lia.
      f_equal. cbn [rev]. rewrite rev_app_distr. cbn [rev app].
      rewrite <- !app_assoc. reflexivity.
Qed.

Lemma cut_buffer (buffer : list Z) (start end_ : nat) :
  (start <= end_ <= length buffer)%nat ->
  buffer = firstn start buffer
           ++ firstn (end_ - start) (skipn start buffer)
           ++ skipn end_ buffer /\
  length (firstn start buffer) = start /\
  length (firstn (end_ - start) (skipn start buffer)) = (end_ - start)%nat.
Proof.
  intros H. repeat split.
  - rewrite <- (firstn_skipn start buffer) at 1. f_equal.
    rewrite <- (firstn_skipn (end_ - start) (skipn start buffer)) at 1.
    f_equal. rewrite skipn_skipn. f_equal. lia.
  - apply firstn_length_le. lia.
  - apply firstn_length_le. rewrite length_skipn. lia.
Qed.

(** X14 -- For [start <= end] inside the buffer, [reverse_string] ends and
    leaves the buffer with the characters from [start] up to, not
    including, [end] in reverse order and every other character in place;
    the length does not change. *)
Theorem reverse_string_reverses (buffer : list Z) (start end_ : nat)
  (Hbounds : (start <= end_ <= length buffer)%nat) :
  exists out,
    reverse_string buffer start end_ = Some out /\
    out = firstn start buffer
          ++ rev (firstn (end_ - start) (skipn start buffer))
          ++ skipn end_ buffer /\
    length out = length buffer.
Proof.
  destruct (cut_buffer buffer start end_ Hbounds) as (Hcut & Hpre & Hmid).
  remember (firstn start buffer) as pre eqn:Epre.
  remember (firstn (end_ - start) (skipn start buffer)) as mid eqn:Emid.
  remember (skipn end_ buffer) as post eqn:Epost.
  exists (pre ++ rev mid ++ post). split; [ | split; [ reflexivity | ] ].
  - pose proof (reverse_loop_segment (S (end_ - start)) mid pre post
                  ltac:(lia)) as H.
    rewrite <- Hcut, Hpre, Hmid in H.
    replace (start + (end_ - start))%nat with end_ in H by lia.
    exact H.
  - rewrite Hcut. rewrite !length_app, length_rev. reflexivity.
Qed.

Lemma reverse_string_reverses_witness :
  (1 <= 4 <= length [104; 101; 108; 108; 111]%Z)%nat /\
  reverse_string [104; 101; 108; 108; 111] 1 4 = Some [104; 108; 108; 101; 111].
Proof.
  split; [ cbn; lia | ].
  destruct (reverse_string_reverses [104; 101; 108; 108; 111] 1 4
              ltac:(cbn; lia)) as (out & Hrun & Hout & _).
  rewrite Hrun, Hout. reflexivity.
Defined.

(** X15 -- Reversing the same part of the buffer twice gives the buffer
    back. *)
Theorem reverse_string_twice (buffer : list Z) (start end_ : nat)
  (Hbounds : (start <= end_ <= length buffer)%nat) :
  exists once,
    reverse_string buffer start end_ = Some once /\
    reverse_string once start end_ = Some buffer.
Proof.
  destruct (cut_buffer buffer start end_ Hbounds) as (Hcut & Hpre & Hmid).
  remember (firstn start buffer) as pre eqn:Epre.
  remember (firstn (end_ - start) (skipn start buffer)) as mid eqn:Emid.
  remember (skipn end_ buffer) as post eqn:Epost.
  exists (pre ++ rev mid ++ post). split.
  - pose proof (reverse_loop_segment (S (end_ - start)) mid pre post
                  ltac:(lia)) as H.
    rewrite <- Hcut, Hpre, Hmid in H.
    replace (start + (end_ - start))%nat with end_ in H by lia.
    exact H.
  - pose proof (reverse_loop_segment (S (end_ - start)) (rev mid) pre post
                  ltac:(rewrite length_rev; lia)) as H.
    rewrite rev_involutive, <- Hcut, Hpre, length_rev, Hmid in H.
    replace (start + (end_ - start))%nat with end_ in H by lia.
    exact H.
Qed.

Lemma reverse_string_twice_witness :
  (1 <= 4 <= length [104; 101; 108; 108; 111]%Z)%nat /\
  exists once,
    reverse_string [104; 101; 108; 108; 111] 1 4 = Some once /\
    reverse_string once 1 4 = Some [104; 101; 108; 108; 111].
Proof.
  split; [ cbn; lia | ].
  apply (reverse_string_twice [104; 101; 108; 108; 111] 1 4). cbn; lia.
Defined.

(** X16 -- With [start >= end] the loop body never runs and the buffer is
    returned as it is, whatever the two indices; with [start < end] and
    [end] beyond the buffer the first exchange is outside the array and the
    call has no result. *)
Theorem reverse_string_edges (buffer : list Z) (start end_ : nat) :
  ((end_ <= start)%nat -> reverse_string buffer start end_ = Some buffer) /\
  ((start < end_)%nat -> (length buffer < end_)%nat ->
   reverse_string buffer start end_ = None).
Proof.
  unfold reverse_string. cbn [reverse_loop]. split.
  - intros H. apply Nat.ltb_ge in H. rewrite H. reflexivity.
  - intros Hlt Hout. apply Nat.ltb_lt in Hlt. rewrite Hlt.
    unfold buffer_get.
    assert (Hnone : nth_error buffer (Nat.pred end_) = None)
      by (apply nth_error_None; lia).
    rewrite Hnone. destruct (nth_error buffer start); reflexivity.
Qed.

Lemma reverse_string_edges_witness :
  ((3 <= 3)%nat -> reverse_string [104; 105] 3 3 = Some [104; 105]) /\
  ((0 < 3)%nat -> (length [104; 105]%Z < 3)%nat ->
   reverse_string [104; 105] 0 3 = None).
Proof.
  split; intros.
  - apply (reverse_string_edges [104; 105] 3 3). lia.
  - apply (reverse_string_edges [104; 105] 0 3); cbn; lia.
Defined.

End MeterTestProofs.

(* ------------------------------------------------------------------------- *)
(** ** Two interrupt contexts: a lost serialisation                           *)
(* ------------------------------------------------------------------------- *)

Module InterleavingProofs.
Import RotencPi IQRot Interleaving.

(** The three accesses of one call, made in one piece, are the routine
    itself; the call reports the direction the routine stores. *)
Lemma whole_call_is_encoderDirection
  (e : encoderStruct) (a b : bool) (rest : list (bool * bool))
  (done : list Z) (other : caller) :
  runSchedule [false; false; false]
    (mkSystem e (mkCaller Idle ((a, b) :: rest) done) other)
  = match encoderDirection a b e with
    | Some e' =>
        Some (mkSystem e' (mkCaller Idle rest (done ++ [direction e'])) other)
    | None => None
    end /\
  runSchedule [true; true; true]
    (mkSystem e other (mkCaller Idle ((a, b) :: rest) done))
  = match encoderDirection a b e with
    | Some e' =>
        Some (mkSystem e' other (mkCaller Idle rest (done ++ [direction e'])))
    | None => None
    end.
Proof.
  unfold encoderDirection.
  split; cbn [runSchedule systemStep callerStep first second shared phase
              pending reported];
    destruct (table_get _ _ _) as [st |]; reflexivity.
Qed.

(** Runs the accesses of a schedule one by one, splitting on each table
    lookup met; a lookup that fails ends the run. *)
Ltac accesses :=
  repeat (cbn;
          match goal with
          | |- context [match table_get ?t ?r ?c with _ => _ end] =>
              destruct (table_get t r c)
          end);
  cbn.

(** With one call per context, the serialized schedules that make both
    calls are the two orders. *)
Lemma serial_orders (e : encoderStruct) (c1 c2 : bool * bool)
  (order : list bool) (s : system) :
  runSchedule (serialSchedule order) (twoCallers e [c1] [c2]) = Some s ->
  allDone s = true ->
  order = [false; true] \/ order = [true; false].
Proof.
  destruct c1 as [a1 b1], c2 as [a2 b2].
  destruct order as [| x [| y [| z rest]]].
  - intros [= <-]. discriminate.
  - destruct x; accesses; intros [= <-]; discriminate.
  - destruct x, y; auto; accesses; intros H; discriminate H.
  - destruct x, y, z; accesses; intros H; discriminate H.
Qed.

(** C8 -- The routine does not run as one atomic section, and the tick
    count of an interleaving need not be that of a serialized execution.
    In state 1, which three calls from START reach, let both contexts
    read both lines high and make one call each.  If both load the state
    before either stores (first, second, then the rest of the first call,
    then the rest of the second), each reports -1: the tick count is -2.
    Every serialized execution of the two calls reports -1 once and 0
    once: the tick count is -1.  In the volume daemon, a call of
    [encoderPulse] that finds the flag of another call up is dropped: the
    line change that a serialized execution counts leaves [encoderPos]
    where it was. *)
Theorem interleaving_double_counts :
  encoderRun (encoderInit 23 24) (map levelsOfCode [1; 0; 2])
    = Some (mkEncoder 23 24 1 0) /\
  option_map tickCount
    (runSchedule [false; true; false; false; true; true]
       (twoCallers (mkEncoder 23 24 1 0) [(true, true)] [(true, true)]))
    = Some (-2) /\
  option_map (fun s => (reported (first s), reported (second s)))
    (runSchedule [false; true; false; false; true; true]
       (twoCallers (mkEncoder 23 24 1 0) [(true, true)] [(true, true)]))
    = Some ([-1], [-1]) /\
  (forall (order : list bool) (s : system),
     runSchedule (serialSchedule order)
       (twoCallers (mkEncoder 23 24 1 0) [(true, true)] [(true, true)])
       = Some s ->
     allDone s = true ->
     tickCount s = -1) /\
  encoderPos (encoderPulse false true (mkGlobals 125 3 0 TRUE)) = 125 /\
  encoderPos (encoderPulse false true (mkGlobals 125 3 0 FALSE)) = 126.
Proof.
  split; [ reflexivity | ].
  split; [ reflexivity | ].
  split; [ reflexivity | ].
  split; [ | split; reflexivity ].
  intros order s Hrun Hdone.
  destruct (serial_orders _ _ _ _ _ Hrun Hdone) as [-> | ->];
    vm_compute in Hrun; injection Hrun as <-; reflexivity.
Qed.

End InterleavingProofs.
